(** * Belle's collection helpers: a shallow embedding and its properties

    The helper functions of belle ([has], [omit], [each], [filter],
    [isArrayLike], [keys], [map], [find], [isEmpty], [findIndex], [first],
    [last], [size], [some], [union], [uniqueId], [flattenInternal],
    [flatten]) are
    translated below, one definition per JavaScript function, and the
    contracts stated for them are proved or refuted against the
    translations.

    ** The value universe

    - numbers are the integer-valued doubles ([Num z]) and [NaN]; fractions
      and infinities are left out.  Doubles count exactly up to 2^53: the
      loops [for (index = 0; index < length; index++)] run [length] times
      for a [length] up to 2^53 and do not run to their end beyond, where
      [index++] stalls; [length - 1] and the printing of a number in plain
      decimal are taken up to 2^53 as well;
    - a true array ([Arr]) is dense and carries nothing but its elements;
      it takes elements at the indices below 2^32 - 1, and [map], which
      stores by index, is taken that far;
    - an object ([Obj]) is a plain record: its own enumerable properties in
      [for .. in] order, then the enumerable properties it inherits from a
      user prototype.  Getters, proxies and non-enumerable own properties
      are left out;
    - a function ([Fun]) is known by its address, which selects its body in
      the table [body], and by its arity, which is its [length];
    - arrays, objects and functions carry the address they live at: [===]
      on them is identity of addresses.  Values are snapshots; a predicate
      that mutates the collection it is iterating is left out.

    Effects are threaded through a state-and-fault monad: the state holds
    the state of the user's functions, the log of every invocation of a
    user function, the allocator and the module variable [idCounter].  A
    computation returns, throws, or leaves the embedding ([Beyond]) where
    the code would hand one of its own closures to a user function, coerce
    an object to a primitive, leave the integers that doubles hold exactly,
    or assign to the key [__proto__].  User functions are bodies over a
    state of their own: they do not call back into the module.

    [flattenInternal] calls itself once per level of nesting: the room the
    call stack has for it is the parameter [stack_limit] of [flatten], and
    a call beyond it throws a [RangeError].

    [extend] updates its first argument in place: it is translated with
    the object under update passed along.  Of the Option component,
    [sanitizeChildProps], the state built from it and [render] are
    translated, the imported [style] being a parameter and the element
    being given as the call of [React.createElement] the JSX stands
    for. *)

From Stdlib Require Import ZArith List String Ascii Bool Lia.
From Stdlib Require Import DecimalString DecimalZ.
Import ListNotations.

Set Warnings "-register-all".

Local Open Scope string_scope.
Local Open Scope list_scope.
Local Open Scope Z_scope.

(** ** Values *)

Definition addr := nat.

Inductive value : Type :=
| Undefined
| Null
| Bool (b : bool)
| Num (z : Z)
| NaN
| Str (s : string)
| Arr (a : addr) (elems : list value)
| Obj (a : addr) (own inherited : list (string * value))
| Fun (a : addr) (arity : nat).

Arguments Arr a%_nat elems%_list.
Arguments Obj a%_nat (own inherited)%_list.
Arguments Fun (a arity)%_nat.

(** [if (v)], [!v], [a && b]: ToBoolean. *)
Definition truthy (v : value) : bool :=
  match v with
  | Undefined | Null | NaN => false
  | Bool b => b
  | Num z => negb (z =? 0)
  | Str s => negb (s =? "")%string
  | Arr _ _ | Obj _ _ _ | Fun _ _ => true
  end.

(** [a === b]. *)
Definition strict_eq (x y : value) : bool :=
  match x, y with
  | Undefined, Undefined => true
  | Null, Null => true
  | Bool b, Bool c => Bool.eqb b c
  | Num n, Num m => n =? m
  | Str s, Str t => (s =? t)%string
  | Arr a _, Arr b _ => Nat.eqb a b
  | Obj a _ _, Obj b _ _ => Nat.eqb a b
  | Fun a _, Fun b _ => Nat.eqb a b
  | _, _ => false
  end.

Inductive js_type := TUndefined | TObject | TBoolean | TNumber | TString | TFunction.

Definition typeof (v : value) : js_type :=
  match v with
  | Undefined => TUndefined
  | Null | Arr _ _ | Obj _ _ _ => TObject
  | Bool _ => TBoolean
  | Num _ | NaN => TNumber
  | Str _ => TString
  | Fun _ _ => TFunction
  end.

Definition js_type_eqb (s t : js_type) : bool :=
  match s, t with
  | TUndefined, TUndefined | TObject, TObject | TBoolean, TBoolean
  | TNumber, TNumber | TString, TString | TFunction, TFunction => true
  | _, _ => false
  end.

(** [Array.isArray(v)]. *)
Definition isArray (v : value) : bool :=
  match v with Arr _ _ => true | _ => false end.

(** Number to string, for the integers: [n + ''], and the property key an
    index is turned into by [obj[index]]. *)
Definition num_to_string (z : Z) : string :=
  NilEmpty.string_of_int (Z.to_int z).

Definition index_key (i : nat) : string := num_to_string (Z.of_nat i).

(** ** Properties *)

Fixpoint lookup (k : string) (ps : list (string * value)) : option value :=
  match ps with
  | [] => None
  | (k', v) :: ps' => if (k =? k')%string then Some v else lookup k ps'
  end.

Definition has_key (k : string) (ps : list (string * value)) : bool :=
  match lookup k ps with Some _ => true | None => false end.

(** The indexed properties ["0"], ["1"], ... of an array or of a string. *)
Fixpoint indexed_from (i : nat) (l : list value) : list (string * value) :=
  match l with
  | [] => []
  | x :: l' => (index_key i, x) :: indexed_from (S i) l'
  end.

Definition indexed (l : list value) : list (string * value) := indexed_from 0 l.

Fixpoint chars (s : string) : list value :=
  match s with
  | EmptyString => []
  | String c s' => Str (String c EmptyString) :: chars s'
  end.

(** The own enumerable properties of a value, in enumeration order. *)
Definition own_props (v : value) : list (string * value) :=
  match v with
  | Obj _ own _ => own
  | Arr _ elems => indexed elems
  | Str s => indexed (chars s)
  | _ => []
  end.

Definition inherited_props (v : value) : list (string * value) :=
  match v with
  | Obj _ _ inh => inh
  | _ => []
  end.

(** The [length] a value answers with when it has one that is not a user
    property: arrays, strings and functions. *)
Definition builtin_length (v : value) : option value :=
  match v with
  | Arr _ elems => Some (Num (Z.of_nat (List.length elems)))
  | Str s => Some (Num (Z.of_nat (String.length s)))
  | Fun _ arity => Some (Num (Z.of_nat arity))
  | _ => None
  end.

(** [obj[k]] on a value that is neither [null] nor [undefined]: own
    properties first, then the prototype chain.  Exact for the keys the
    helpers read: enumerated keys, indices and [length]. *)
Definition get (obj : value) (k : string) : value :=
  match lookup k (own_props obj) with
  | Some v => v
  | None =>
      match lookup k (inherited_props obj) with
      | Some v => v
      | None =>
          if (k =? "length")%string then
            match builtin_length obj with Some n => n | None => Undefined end
          else Undefined
      end
  end.

(** [Object.prototype.hasOwnProperty.call(obj, k)]; exact for the keys
    [for .. in] visits and for [length]. *)
Definition hasOwnProperty (obj : value) (k : string) : bool :=
  has_key k (own_props obj)
  || ((k =? "length")%string
      && match obj with Arr _ _ | Str _ | Fun _ _ => true | _ => false end).

(** The keys [for (const key in obj)] visits: own enumerable keys, then the
    inherited ones that no own key shadows.  Nothing for [null] and
    [undefined]. *)
Definition for_in_keys (obj : value) : list string :=
  List.map fst (own_props obj)
  ++ List.filter (fun k => negb (has_key k (own_props obj)))
       (List.map fst (inherited_props obj)).

(** ** The monad: state, faults, and what the embedding leaves out *)

Inductive fault :=
| TypeError
| RangeError
| Raised (v : value).

Inductive result (A : Type) :=
| Val (a : A)
| Throw (f : fault)
| Beyond.

Arguments Val {A} a.
Arguments Throw {A} f.
Arguments Beyond {A}.

Inductive completion :=
| Return (v : value)
| Raise (v : value).

(** One invocation of a user function: which one, its [this], its
    arguments. *)
Record call := mkCall { callee : addr; this_arg : value; args : list value }.

Arguments mkCall callee%_nat this_arg args%_list.

(** A React element, as the arguments [React.createElement] is called
    with. *)
Record element := mkElement { tag : string; config : value; children : value }.

(** A computation over a state [S]: it returns, throws, or leaves the
    embedding ([Beyond]: a user function handed one of the module's own
    closures, a coercion of an object to a primitive, a number beyond
    what doubles count exactly, an assignment to [__proto__]). *)
Definition M (S A : Type) : Type := S -> result A * S.

Definition ret {S A} (a : A) : M S A := fun s => (Val a, s).

Definition bind {S A B} (m : M S A) (k : A -> M S B) : M S B :=
  fun s =>
    match m s with
    | (Val a, s') => k a s'
    | (Throw f, s') => (Throw f, s')
    | (Beyond, s') => (Beyond, s')
    end.

Definition throw {S A} (f : fault) : M S A := fun s => (Throw f, s).

Definition beyond {S A} : M S A := fun s => (Beyond, s).

Notation "x <- m ;; k" := (bind m (fun x => k))
  (at level 61, m at next level, right associativity).
Notation "m ;;; k" := (bind m (fun _ => k))
  (at level 61, right associativity).

Record state (U : Type) := mkState {
  user : U;
  calls : list call;
  next : addr;
  idCounter : Z
}.

Arguments mkState {U} _ _%_list _%_nat _%_Z.
Arguments user {U} _.
Arguments calls {U} _.
Arguments next {U} _.
Arguments idCounter {U} _.

(** For the closed instances: user functions without a state of their
    own that all return [v], and a process that has handed out the
    addresses 0 and 1. *)
Definition always (v : value)
  : addr -> value -> list value -> unit -> completion * unit :=
  fun _ _ _ u => (Return v, u).

Definition started : state unit := mkState tt [] 2 0.


(** User functions without a state of their own that compute [g] from
    their arguments. *)
Definition answers (g : list value -> value)
  : addr -> value -> list value -> unit -> completion * unit :=
  fun _ _ xs u => (Return (g xs), u).

(** For the closed instances: whether the first argument is an even number;
    a process that has handed out the addresses below 50; the own
    properties of a theme, of the props of an option and of its context. *)
Definition is_even (xs : list value) : value :=
  match xs with
  | Num z :: _ => Bool (Z.even z)
  | _ => Bool false
  end.

Definition running : state unit := mkState tt [] 50 0.

Definition sample_theme : list (string * value) :=
  [("style", Obj 11 [("color", Str "black"); ("padding", Num 1)] []);
   ("hoverStyle", Obj 12 [("color", Str "blue")] []);
   ("selectStyle", Obj 13 [("color", Str "grey")] []);
   ("disabledSelectStyle", Obj 14 [("opacity", Num 0)] [])].

Definition sample_props : list (string * value) :=
  [("value", Str "x"); ("style", Obj 21 [("padding", Num 5)] []);
   ("title", Str "pick me"); ("children", Str "label")].

Definition sample_context : list (string * value) :=
  [("isDisabled", Bool false); ("isHoveredValue", Str "x")].

Section Helpers.

(** The state of the user's functions and the table of their bodies. *)
Context {U : Type}.
Variable body : addr -> value -> list value -> U -> completion * U.

Definition Op (A : Type) : Type := M (state U) A.

(** Calling the function at address [f]: the call is logged, then the body
    runs on the user state. *)
Definition apply_fun (f : addr) (this : value) (xs : list value) : Op value :=
  fun s =>
    let s1 := mkState (user s) (calls s ++ [mkCall f this xs]) (next s) (idCounter s) in
    match body f this xs (user s1) with
    | (Return v, u) => (Val v, mkState u (calls s1) (next s1) (idCounter s1))
    | (Raise v, u) => (Throw (Raised v), mkState u (calls s1) (next s1) (idCounter s1))
    end.

(** A fresh address: [[]], [{}], [[iterable]], a rest parameter. *)
Definition alloc : Op addr :=
  fun s => (Val (next s), mkState (user s) (calls s) (S (next s)) (idCounter s)).

(** [predicate.call(context, x1, ..)] for a user-supplied [predicate].  A
    function is invoked with [this = context].  Anything else has no
    [call] of its own unless it is an object with a property of that name:
    that one is then invoked as a method of [predicate], with [context] as
    its first argument. *)
Definition invoke (predicate context : value) (xs : list value) : Op value :=
  match predicate with
  | Fun f _ => apply_fun f context xs
  | Obj _ own inh =>
      match lookup "call" (own ++ inh) with
      | Some (Fun g _) => apply_fun g predicate (context :: xs)
      | _ => throw TypeError
      end
  | _ => throw TypeError
  end.

(** [obj.name]: reading a property throws on [null] and [undefined]. *)
Definition read (obj : value) (name : string) : Op value :=
  match obj with
  | Undefined | Null => throw TypeError
  | _ => ret (get obj name)
  end.

(** ** The helpers *)

(** [has(obj, key)] *)
Definition has (obj : value) (key : string) : bool :=
  negb (strict_eq obj Undefined) && negb (strict_eq obj Null)
  && hasOwnProperty obj key.

(** [isArrayLike(obj)] *)
Definition isArrayLike (obj : value) : Op bool :=
  if isArray obj then ret true
  else if js_type_eqb (typeof obj) TString then ret false
  else
    length <- read obj "length" ;;
    ret (js_type_eqb (typeof length) TNumber
         && match length with Num z => 0 <=? z | _ => false end).

(** A function the helpers call back: the user's [predicate], or an arrow
    function written in the module.  The arrow functions update a variable
    they capture ([result], [output]); it is passed through as [acc]. *)
Inductive callback (A : Type) :=
| UserFn (predicate : value)
| Closure (k : value -> A -> Op A).

Arguments UserFn {A} predicate.
Arguments Closure {A} k.

(** [predicate.call(context, x)] *)
Definition call_with {A} (predicate : callback A) (context x : value) (acc : A)
  : Op A :=
  match predicate with
  | UserFn p => invoke p context [x] ;;; ret acc
  | Closure k => k x acc
  end.

(** [Array.prototype.forEach]: the elements in ascending index order. *)
Fixpoint forEach_elems {A} (elems : list value) (f : value -> A -> Op A)
  (acc : A) : Op A :=
  match elems with
  | [] => ret acc
  | elm :: rest => acc' <- f elm acc ;; forEach_elems rest f acc'
  end.

(** [obj.forEach(f)].  Only true arrays have the method.  An object that
    brings a function of its own under that name would be handed the
    closure [f]. *)
Definition forEach {A} (obj : value) (f : value -> A -> Op A) (acc : A) : Op A :=
  match obj with
  | Arr _ elems => forEach_elems elems f acc
  | Undefined | Null => throw TypeError
  | _ =>
      match lookup "forEach" (own_props obj ++ inherited_props obj) with
      | Some (Fun _ _) => beyond
      | _ => throw TypeError
      end
  end.

(** [each(obj, predicate, context)], as the module calls it. *)
Definition each_k {A} (obj : value) (predicate : callback A) (context : value)
  (acc : A) : Op A :=
  if truthy obj then
    al <- isArrayLike obj ;;
    if al then forEach obj (fun elm acc => call_with predicate context elm acc) acc
    else call_with predicate context obj acc
  else ret acc.

(** [each(obj, predicate, context)], as exported: no [return] statement. *)
Definition each (obj predicate context : value) : Op value :=
  each_k obj (UserFn predicate) context tt ;;; ret Undefined.

(** [filter(iterable, predicate, context)] *)
Definition filter (iterable predicate context : value) : Op value :=
  if truthy iterable then
    a <- alloc ;;
    result <- each_k iterable
      (Closure (fun obj result =>
         if truthy predicate then
           r <- invoke predicate context [obj] ;;
           if truthy r then ret (result ++ [obj]) else ret result
         else ret result))
      Undefined [] ;;
    ret (Arr a result)
  else ret Undefined.

(** [keys(obj)] *)
Definition keys (obj : value) : Op value :=
  a <- alloc ;;
  ret (Arr a (List.map Str (List.filter (has obj) (for_in_keys obj)))).

(** ToNumber, where it needs neither parsing nor a coercion of an object. *)
Definition to_num (v : value) : option value :=
  match v with
  | Undefined | NaN => Some NaN
  | Null => Some (Num 0)
  | Bool b => Some (Num (if b then 1 else 0))
  | Num z => Some (Num z)
  | _ => None
  end.

(** [a < b] *)
Definition less (a b : value) : Op bool :=
  match to_num a, to_num b with
  | Some (Num x), Some (Num y) => ret (x <? y)
  | Some _, Some _ => ret false
  | _, _ => beyond
  end.

(** How often [for (let index = 0; index < length; index++)] runs.  The
    counter is a double: [index++] is exact up to 2^53 and stalls there,
    so with a greater [length] the condition [index < length] never turns
    false and the loop is left by [break] or not at all. *)
Definition iterations (length : value) : Op nat :=
  match to_num length with
  | Some (Num z) => if z <=? 2 ^ 53 then ret (Z.to_nat z) else beyond
  | Some _ => ret 0%nat
  | None => beyond
  end.


(** [obj[k]], for the subscripts the helpers use: a key that was
    enumerated, or an index that [iterations] or [minus_one] let through
    (an integer up to 2^53, which prints in plain decimal). *)
Definition subscript (obj k : value) : Op value :=
  match k with
  | Str key => read obj key
  | Num index => read obj (num_to_string index)
  | _ => beyond
  end.

(** [result[index] = v] on a dense array; slots skipped over read as
    [undefined]. *)
Definition store (l : list value) (i : nat) (v : value) : list value :=
  if (i <? List.length l)%nat then firstn i l ++ v :: skipn (S i) l
  else l ++ repeat Undefined (i - List.length l) ++ [v].

(** [result[index] = v] as [map] does it, on the array it builds.  From
    2^32 - 1 on a number is no array index: the assignment would add a
    property and leave [length] as it is. *)
Definition set_index (l : list value) (i : nat) (v : value) : Op (list value) :=
  if Z.of_nat i <? 2 ^ 32 - 1 then ret (store l i v) else beyond.

Definition index_value (index : nat) : value := Num (Z.of_nat index).

Fixpoint map_loop (obj objKeys predicate context : value) (indices : list nat)
  (result : list value) : Op (list value) :=
  match indices with
  | [] => ret result
  | index :: rest =>
      currentKey <- (if truthy objKeys then subscript objKeys (index_value index)
                     else ret (index_value index)) ;;
      result' <- (if truthy predicate then
                    x <- subscript obj currentKey ;;
                    r <- invoke predicate context [x; currentKey] ;;
                    set_index result index r
                  else ret result) ;;
      map_loop obj objKeys predicate context rest result'
  end.

(** [map(obj, predicate, context)] *)
Definition map (obj predicate context : value) : Op value :=
  if truthy obj then
    a <- alloc ;;
    al <- isArrayLike obj ;;
    objKeys <- (if negb al then keys obj else ret (Bool false)) ;;
    length <- read (if truthy objKeys then objKeys else obj) "length" ;;
    n <- iterations length ;;
    result <- map_loop obj objKeys predicate context (seq 0 n) [] ;;
    ret (Arr a result)
  else ret Undefined.

(** The lines [find], [findIndex], [size] and [some] all open with:
    [source = isArrayLike(iterable) ? iterable : [iterable]]. *)
Definition source_of (iterable : value) : Op value :=
  al <- isArrayLike iterable ;;
  if al then ret iterable
  else a <- alloc ;; ret (Arr a [iterable]).

(** [predicate && predicate.call(context, source[index])], as a condition. *)
Definition test (source predicate context : value) (index : nat) : Op bool :=
  if truthy predicate then
    x <- subscript source (index_value index) ;;
    r <- invoke predicate context [x] ;;
    ret (truthy r)
  else ret false.

Fixpoint find_loop (source predicate context : value) (indices : list nat)
  : Op value :=
  match indices with
  | [] => ret Undefined
  | index :: rest =>
      hit <- test source predicate context index ;;
      if hit then subscript source (index_value index)
      else find_loop source predicate context rest
  end.

(** [find(iterable, predicate, context)] *)
Definition find (iterable predicate context : value) : Op value :=
  if truthy iterable then
    source <- source_of iterable ;;
    length <- read source "length" ;;
    n <- iterations length ;;
    find_loop source predicate context (seq 0 n)
  else ret Undefined.

(** [isEmpty(iterable)] *)
Definition isEmpty (iterable : value) : Op bool :=
  if negb (truthy iterable) then ret true
  else
    length <- read iterable "length" ;;
    ret (strict_eq length (Num 0)).

Fixpoint findIndex_loop (source predicate context : value) (indices : list nat)
  : Op value :=
  match indices with
  | [] => ret Undefined
  | index :: rest =>
      hit <- test source predicate context index ;;
      if hit then ret (index_value index)
      else findIndex_loop source predicate context rest
  end.

(** [findIndex(iterable, predicate, context)] *)
Definition findIndex (iterable predicate context : value) : Op value :=
  if truthy iterable then
    source <- source_of iterable ;;
    length <- read source "length" ;;
    n <- iterations length ;;
    findIndex_loop source predicate context (seq 0 n)
  else ret Undefined.

(** [first(iterable)] *)
Definition first (iterable : value) : Op value :=
  if truthy iterable then
    al <- isArrayLike iterable ;;
    if al then
      length <- read iterable "length" ;;
      positive <- less (Num 0) length ;;
      if positive then subscript iterable (Num 0) else ret Undefined
    else ret iterable
  else ret Undefined.

(** [length - 1], in doubles: exact up to 2^53, rounded beyond (an odd
    difference is not a double). *)
Definition minus_one (length : value) : Op value :=
  match to_num length with
  | Some (Num z) => if Z.abs z <=? 2 ^ 53 then ret (Num (z - 1)) else beyond
  | Some _ => ret NaN
  | None => beyond
  end.

(** [last(iterable)] *)
Definition last (iterable : value) : Op value :=
  if truthy iterable then
    al <- isArrayLike iterable ;;
    if al then
      length <- read iterable "length" ;;
      positive <- less (Num 0) length ;;
      if positive then
        length' <- read iterable "length" ;;
        i <- minus_one length' ;;
        subscript iterable i
      else ret Undefined
    else ret iterable
  else ret Undefined.

(** [size(iterable)] *)
Definition size (iterable : value) : Op value :=
  if truthy iterable then
    source <- source_of iterable ;;
    read source "length"
  else ret (Num 0).

Fixpoint some_loop (source predicate context : value) (indices : list nat)
  : Op value :=
  match indices with
  | [] => ret Undefined
  | index :: rest =>
      hit <- test source predicate context index ;;
      if hit then ret (Bool true)
      else some_loop source predicate context rest
  end.

(** [some(iterable, predicate, context)] *)
Definition some (iterable predicate context : value) : Op value :=
  if truthy iterable then
    source <- source_of iterable ;;
    length <- read source "length" ;;
    n <- iterations length ;;
    some_loop source predicate context (seq 0 n)
  else ret Undefined.

(** [Array.prototype.indexOf]: the first index holding a value [===] to
    [x], or -1. *)
Fixpoint indexOf_from (i : Z) (l : list value) (x : value) : Z :=
  match l with
  | [] => -1
  | y :: l' => if strict_eq y x then i else indexOf_from (i + 1) l' x
  end.

Definition array_indexOf (l : list value) (x : value) : Z := indexOf_from 0 l x.

(** [String.prototype.indexOf]: where [key] first occurs inside [s], or
    -1. *)
Definition string_indexOf (s key : string) : Z :=
  match String.index 0 key s with
  | Some n => Z.of_nat n
  | None => -1
  end.

(** [fields.indexOf(key)], [key] a string. *)
Definition indexOf (fields : value) (key : string) : Op value :=
  match fields with
  | Arr _ elems => ret (Num (array_indexOf elems (Str key)))
  | Str s => ret (Num (string_indexOf s key))
  | Undefined | Null => throw TypeError
  | _ =>
      match lookup "indexOf" (own_props fields ++ inherited_props fields) with
      | Some (Fun g _) => apply_fun g fields [Str key]
      | _ => throw TypeError
      end
  end.

(** [obj.hasOwnProperty(key)]: the method of [Object.prototype], unless
    [obj] has a property of that name. *)
Definition call_hasOwnProperty (obj : value) (key : string) : Op value :=
  match obj with
  | Undefined | Null => throw TypeError
  | _ =>
      match lookup "hasOwnProperty" (own_props obj ++ inherited_props obj) with
      | Some (Fun g _) => apply_fun g obj [Str key]
      | Some _ => throw TypeError
      | None => ret (Bool (hasOwnProperty obj key))
      end
  end.

(** [result[key] = v] on a plain object: an existing key keeps its place. *)
Fixpoint set_prop (ps : list (string * value)) (k : string) (v : value)
  : list (string * value) :=
  match ps with
  | [] => [(k, v)]
  | (k', v') :: ps' =>
      if (k =? k')%string then (k, v) :: ps' else (k', v') :: set_prop ps' k v
  end.

(** [result[key] = x] on the object literal [result].  The key
    [__proto__] would reach the setter of [Object.prototype] and add no
    property. *)
Definition put (result : list (string * value)) (key : string) (x : value)
  : Op (list (string * value)) :=
  if (key =? "__proto__")%string then beyond else ret (set_prop result key x).

Fixpoint omit_loop (obj fields : value) (ks : list string)
  (result : list (string * value)) : Op (list (string * value)) :=
  match ks with
  | [] => ret result
  | key :: rest =>
      own <- call_hasOwnProperty obj key ;;
      keep <- (if truthy own then
                 if negb (truthy fields) then ret true
                 else i <- indexOf fields key ;; less i (Num 0)
               else ret false) ;;
      result' <- (if keep then x <- read obj key ;; put result key x
                  else ret result) ;;
      omit_loop obj fields rest result'
  end.

(** [omit(obj, fields)] *)
Definition omit (obj fields : value) : Op value :=
  if truthy obj then
    a <- alloc ;;
    result <- omit_loop obj fields (for_in_keys obj) [] ;;
    ret (Obj a result [])
  else ret Undefined.

(** [union(...arrs)] *)
Definition union (arrs : list value) : Op value :=
  a0 <- alloc ;;
  let arrs := Arr a0 arrs in
  if truthy arrs then
    a <- alloc ;;
    result <- forEach arrs
      (fun arr result =>
         if truthy arr then
           each_k arr
             (Closure (fun obj result =>
                if array_indexOf result obj <? 0 then ret (result ++ [obj])
                else ret result))
             Undefined result
         else ret result)
      [] ;;
    ret (Arr a result)
  else ret Undefined.




(** A call of [f] from within an activation that has [room] for nested
    calls left: without room the stack overflows. *)
Definition nested_call {A} (room : nat) (f : nat -> Op A) : Op A :=
  match room with
  | O => throw RangeError
  | S room' => f room'
  end.

(** [flattenInternal(output, element)], in an activation with [room] for
    nested calls.  The recursion is on the nesting of true arrays, so the
    pass of [each] over a true array is written out for the recursion to
    be seen as structural; [flattenInternal_eq] below gives the definition
    back in the words of the source. *)
Fixpoint flattenInternal (room : nat) (output : list value) (element : value)
  {struct element} : Op (list value) :=
  if truthy element then
    match element with
    | Arr _ elems =>
        (fix visit (l : list value) (output : list value) : Op (list value) :=
           match l with
           | [] => ret output
           | obj :: rest =>
               output' <- (if isArray obj then
                             nested_call room
                               (fun room' => flattenInternal room' output obj)
                           else ret (output ++ [obj])) ;;
               visit rest output'
           end) elems output
    | _ =>
        each_k element (Closure (fun obj output => ret (output ++ [obj])))
          Undefined output
    end
  else ret output.


(** [target[key] = x], the module being strict code.  On an object the
    property is set in place, or added after the others (an index key
    would be enumerated before them: the list is then no longer in the
    order of enumeration); the key [__proto__] would reach the setter of
    [Object.prototype] instead.  A
    primitive takes no property: the assignment throws.  Arrays and
    functions would take properties that their values here do not carry. *)
Definition assign (target : value) (key : string) (x : value) : Op value :=
  match target with
  | Obj a own inh =>
      if (key =? "__proto__")%string then beyond
      else ret (Obj a (set_prop own key x) inh)
  | Arr _ _ | Fun _ _ => beyond
  | _ => throw TypeError
  end.

Fixpoint extend_keys (obj1 obj : value) (ks : list string) : Op value :=
  match ks with
  | [] => ret obj1
  | key :: rest =>
      own <- call_hasOwnProperty obj key ;;
      obj1' <- (if truthy own then x <- read obj key ;; assign obj1 key x
                else ret obj1) ;;
      extend_keys obj1' obj rest
  end.

(** [extend(obj1, ...objs)].  [obj1] is updated in place: the value passed
    along is what lives at its address after each assignment, and a source
    that is [obj1] itself is read as it stands by then. *)
Definition extend (obj1 : value) (objs : list value) : Op value :=
  a0 <- alloc ;;
  let objs := Arr a0 objs in
  if truthy obj1 && truthy objs then
    forEach objs
      (fun obj obj1 =>
         if truthy obj then
           let obj := if strict_eq obj obj1 then obj1 else obj in
           extend_keys obj1 obj (for_in_keys obj)
         else ret obj1)
      obj1
  else ret obj1.

(** ** The Option component *)

(** The own enumerable properties of [source] copied onto the properties
    [target], as an object spread does. *)
Definition copy_props (target : list (string * value)) (source : value)
  : list (string * value) :=
  fold_left (fun acc kv => set_prop acc (fst kv) (snd kv)) (own_props source) target.

(** An object literal: the properties written out, then the spreads, in
    order: [{ k: v, ...a, ...b }]. *)
Definition object_literal (written : list (string * value)) (spreads : list value)
  : Op value :=
  a <- alloc ;;
  ret (Obj a (fold_left copy_props spreads written) []).

(** [Object.keys(optionPropTypes)] *)
Definition optionPropTypes : list string :=
  ["children"; "style"; "hoverStyle"; "selectStyle"; "disabledSelectStyle";
   "_isDisplayedAsSelected"; "value"; "identifier"].

(** [sanitizeChildProps(properties)] *)
Definition sanitizeChildProps (properties : value) : Op value :=
  a <- alloc ;;
  omit properties (Arr a (List.map Str optionPropTypes)).

(** [{ childProps: sanitizeChildProps(properties) }]: what the constructor
    stores in [this.state] and what [componentWillReceiveProps] hands to
    [setState]. *)
Definition childProps_state (properties : value) : Op value :=
  childProps <- sanitizeChildProps properties ;;
  object_literal [("childProps", childProps)] [].

(** The first statement of [render]: [optionStyle], from [this.props],
    [this.context] and the imported [style]. *)
Definition optionStyle (style props context : value) : Op value :=
  selected <- read props "_isDisplayedAsSelected" ;;
  if truthy selected then
    theme <- read style "selectStyle" ;;
    custom <- read props "selectStyle" ;;
    optionStyle <- object_literal [] [theme; custom] ;;
    isDisabled <- read context "isDisabled" ;;
    if truthy isDisabled then
      theme <- read style "disabledSelectStyle" ;;
      custom <- read props "disabledSelectStyle" ;;
      object_literal [] [optionStyle; theme; custom]
    else ret optionStyle
  else
    theme <- read style "style" ;;
    custom <- read props "style" ;;
    optionStyle <- object_literal [] [theme; custom] ;;
    isHoveredValue <- read context "isHoveredValue" ;;
    ownValue <- read props "value" ;;
    if strict_eq isHoveredValue ownValue then
      theme <- read style "hoverStyle" ;;
      custom <- read props "hoverStyle" ;;
      object_literal [] [optionStyle; theme; custom]
    else ret optionStyle.

(** [render()]: the element is given as the call of [React.createElement]
    that the JSX stands for: type, config, children. *)
Definition render (style props context state : value) : Op element :=
  optionStyle <- optionStyle style props context ;;
  childProps <- read state "childProps" ;;
  config <- object_literal [("style", optionStyle)] [childProps] ;;
  children <- read props "children" ;;
  ret (mkElement "div" config children).


(** ** The words of the contracts *)

(** What [isArrayLike] answers, as a function of the value. *)
Definition array_like (obj : value) : bool :=
  isArray obj
  || (negb (js_type_eqb (typeof obj) TString)
      && match get obj "length" with Num z => 0 <=? z | _ => false end).

Definition length_of (source : value) : nat :=
  match get source "length" with Num z => Z.to_nat z | _ => 0%nat end.

(** [source[0], .., source[length - 1]] *)
Definition elements (source : value) : list value :=
  List.map (fun i => get source (index_key i)) (seq 0 (length_of source)).

(** The sequence a collection stands for: itself when array-like, the
    one-element wrapping otherwise. *)
Definition normalized (iterable : value) : list value :=
  if array_like iterable then elements iterable else [iterable].

(** The state after one allocation. *)
Definition bump (s : state U) : state U :=
  mkState (user s) (calls s) (S (next s)) (idCounter s).

(** The state in which [find], [findIndex], [size] and [some] start to
    scan: the wrapping [[iterable]] has been allocated when [iterable] is
    not array-like. *)
Definition entered (iterable : value) (s : state U) : state U :=
  if array_like iterable then s else bump s.

(** The state in which [map] starts to fill [result]: [result] has been
    allocated, and so has the array of keys when [obj] is not array-like. *)
Definition map_entered (obj : value) (s : state U) : state U :=
  if array_like obj then bump s else bump (bump s).

(** The state after the user's functions have been left in state [u], the
    invocations [cs] having been logged. *)
Definition after (s : state U) (u : U) (cs : list call) : state U :=
  mkState u (calls s ++ cs) (next s) (idCounter s).

(** The function at [f] returns whatever it is called with. *)
Definition returns_normally (f : addr) : Prop :=
  forall this xs u, exists v u', body f this xs u = (Return v, u').



(** The collections on which [each] iterates without needing [forEach] on
    an object: falsy values, true arrays, values that are not array-like. *)
Definition plain (obj : value) : Prop :=
  truthy obj = false \/ isArray obj = true \/ array_like obj = false.


(** [predicate] invoked once per argument list, in order, the values it
    returns collected. *)
Fixpoint invoke_all (predicate context : value) (argss : list (list value))
  : Op (list value) :=
  match argss with
  | [] => ret []
  | xs :: rest =>
      r <- invoke predicate context xs ;;
      rs <- invoke_all predicate context rest ;;
      ret (r :: rs)
  end.

(** The arguments [map] hands to [predicate], slot by slot. *)
Definition map_arguments (obj : value) : list (list value) :=
  if array_like obj then
    List.map (fun i => [get obj (index_key i); index_value i])
      (seq 0 (length_of obj))
  else
    List.map (fun kv => [get obj (fst kv); Str (fst kv)]) (own_props obj).






(** A count the loops reach: at most 2^53. *)
Definition countable (n : nat) : Prop := Z.of_nat n <= 2 ^ 53.

(** A count of elements an array holds: at most 2^32 - 1. *)
Definition indexable (n : nat) : Prop := Z.of_nat n <= 2 ^ 32 - 1.






(** [x] put at the end of [result] unless [result] already holds a value
    [===] to it. *)
Definition add_new (result : list value) (x : value) : list value :=
  if existsb (fun y => strict_eq y x) result then result else result ++ [x].

(** The closure [union] hands to [each]. *)
Definition union_visit (obj : value) (result : list value) : Op (list value) :=
  if array_indexOf result obj <? 0 then ret (result ++ [obj]) else ret result.


(** What [omit] keeps of the key [k] when [fields] is a true array or
    falsy: whether [k] is not listed. *)
Definition not_listed (fields : value) (k : string) : bool :=
  match fields with
  | Arr _ elems => negb (existsb (fun y => strict_eq y (Str k)) elems)
  | _ => true
  end.

(** The closure [filter] hands to [each]. *)
Definition filter_visit (predicate context obj : value) (result : list value)
  : Op (list value) :=
  if truthy predicate then
    r <- invoke predicate context [obj] ;;
    if truthy r then ret (result ++ [obj]) else ret result
  else ret result.

(** Whether [k] names one of the props the Option keeps to itself. *)
Definition reserved (k : string) : bool :=
  existsb (fun name => (name =? k)%string) optionPropTypes.

(** The properties [kvs] assigned onto [target], one after the other. *)
Definition set_all (kvs target : list (string * value)) : list (string * value) :=
  fold_left (fun acc kv => set_prop acc (fst kv) (snd kv)) kvs target.

(** An object whose listed properties have a key each. *)
Definition record (v : value) : Prop := NoDup (List.map fst (own_props v)).

(** A source [extend] copies from without leaving the embedding: a record
    that brings no [hasOwnProperty] of its own and no key [__proto__]. *)
Definition plain_source (v : value) : Prop :=
  record v
  /\ lookup "hasOwnProperty" (own_props v ++ inherited_props v) = None
  /\ lookup "__proto__" (own_props v) = None.

(** The value the last of [layers] that has the key [k] gives it. *)
Definition last_binding (k : string) (layers : list value) (found : option value)
  : option value :=
  fold_left
    (fun found layer =>
       match lookup k (own_props layer) with Some v => Some v | None => found end)
    layers found.

(** The style objects an option is dressed in, the later over the
    earlier. *)
Definition style_layers (style props context : value) : list value :=
  if truthy (get props "_isDisplayedAsSelected") then
    [get style "selectStyle"; get props "selectStyle"]
    ++ (if truthy (get context "isDisabled") then
          [get style "disabledSelectStyle"; get props "disabledSelectStyle"]
        else [])
  else
    [get style "style"; get props "style"]
    ++ (if strict_eq (get context "isHoveredValue") (get props "value") then
          [get style "hoverStyle"; get props "hoverStyle"]
        else []).

(** The elements [xs] whose answer in [rs] is truthy. *)
Fixpoint accepted (xs rs : list value) : list value :=
  match xs, rs with
  | x :: xs', r :: rs' => if truthy r then x :: accepted xs' rs' else accepted xs' rs'
  | _, _ => []
  end.

(** The position of the first element [p] holds of. *)
Fixpoint first_index (p : value -> bool) (xs : list value) : option nat :=
  match xs with
  | [] => None
  | x :: xs' => if p x then Some 0%nat else option_map S (first_index p xs')
  end.

(** The function at [f] computes [g] from its arguments and touches
    nothing. *)
Definition computes (f : addr) (g : list value -> value) : Prop :=
  forall this xs u, body f this xs u = (Return (g xs), u).

(** ** Basic facts *)

Lemma bind_val {A B} (m : Op A) (k : A -> Op B) s a s' :
  m s = (Val a, s') -> bind m k s = k a s'.
Proof. unfold bind; intros ->; reflexivity. Qed.

Lemma bind_throw {A B} (m : Op A) (k : A -> Op B) s f s' :
  m s = (Throw f, s') -> bind m k s = (Throw f, s').
Proof. unfold bind; intros ->; reflexivity. Qed.

Lemma bind_beyond {A B} (m : Op A) (k : A -> Op B) s s' :
  m s = (Beyond, s') -> bind m k s = (Beyond, s').
Proof. unfold bind; intros ->; reflexivity. Qed.

Lemma bind_assoc {A B C} (m : Op A) (f : A -> Op B) (g : B -> Op C) s :
  bind (bind m f) g s = bind m (fun a => bind (f a) g) s.
Proof. unfold bind; destruct (m s) as [[a| |] s']; reflexivity. Qed.

Lemma bind_ret {A B} (a : A) (k : A -> Op B) s : bind (ret a) k s = k a s.
Proof. reflexivity. Qed.

Lemma isArrayLike_array_like obj s :
  obj <> Null -> obj <> Undefined ->
  isArrayLike obj s = (Val (array_like obj), s).
Proof.
  intros Hn Hu; unfold isArrayLike, array_like.
  destruct obj; try congruence; try reflexivity;
    cbn [isArray typeof js_type_eqb orb negb andb read]; unfold bind, ret;
    destruct (get _ "length"); reflexivity.
Qed.

Lemma truthy_not_null obj : truthy obj = true -> obj <> Null /\ obj <> Undefined.
Proof. destruct obj; cbn; split; congruence. Qed.

Lemma isArrayLike_truthy obj s :
  truthy obj = true -> isArrayLike obj s = (Val (array_like obj), s).
Proof.
  intros H; destruct (truthy_not_null _ H); now apply isArrayLike_array_like.
Qed.

(** *** Keys of indices *)

Lemma num_to_string_inj z1 z2 : num_to_string z1 = num_to_string z2 -> z1 = z2.
Proof.
  unfold num_to_string; intros H.
  assert (E : Some (Z.to_int z1) = Some (Z.to_int z2))
    by (rewrite <- !NilEmpty.isi; now rewrite H).
  injection E as E.
  rewrite <- (DecimalZ.of_to z1), <- (DecimalZ.of_to z2); now rewrite E.
Qed.

Lemma index_key_inj i j : index_key i = index_key j -> i = j.
Proof. unfold index_key; intros H; apply num_to_string_inj in H; lia. Qed.

Lemma num_to_string_not_length z : (num_to_string z =? "length")%string = false.
Proof.
  apply String.eqb_neq; intros H.
  assert (E : NilEmpty.int_of_string (num_to_string z) = NilEmpty.int_of_string "length")
    by now rewrite H.
  unfold num_to_string in E; rewrite NilEmpty.isi in E; discriminate E.
Qed.

Lemma lookup_indexed_from i j l :
  lookup (index_key i) (indexed_from j l)
  = if (i <? j)%nat then None else nth_error l (i - j).
Proof.
  revert j; induction l as [|x l IH]; intros j; cbn [indexed_from lookup].
  - destruct (i <? j)%nat; [reflexivity|]. now destruct (i - j)%nat.
  - destruct (String.eqb_spec (index_key i) (index_key j)) as [E|E].
    + apply index_key_inj in E; subst j.
      rewrite Nat.ltb_irrefl, Nat.sub_diag; reflexivity.
    + rewrite IH. assert (i <> j) by congruence.
      destruct (Nat.ltb_spec i (S j)), (Nat.ltb_spec i j); try lia; try reflexivity.
      replace (i - j)%nat with (S (i - S j)) by lia; reflexivity.
Qed.

Lemma lookup_indexed i l : lookup (index_key i) (indexed l) = nth_error l i.
Proof.
  unfold indexed; rewrite lookup_indexed_from; cbn. now rewrite Nat.sub_0_r.
Qed.

Lemma get_array_index a l i : get (Arr a l) (index_key i) = nth i l Undefined.
Proof.
  unfold get; cbn [own_props inherited_props lookup].
  rewrite lookup_indexed. destruct (nth_error l i) eqn:E.
  - symmetry; now apply nth_error_nth.
  - unfold index_key; rewrite num_to_string_not_length.
    apply nth_error_None in E. symmetry; now apply nth_overflow.
Qed.

Lemma lookup_indexed_from_other k j l :
  (forall i, k <> index_key i) -> lookup k (indexed_from j l) = None.
Proof.
  intros H; revert j; induction l as [|x l IH]; intros j; cbn; [reflexivity|].
  destruct (String.eqb_spec k (index_key j)) as [E|E]; [now apply H in E|apply IH].
Qed.

Lemma get_array_length a l : get (Arr a l) "length" = Num (Z.of_nat (List.length l)).
Proof.
  unfold get; cbn [own_props inherited_props lookup]. unfold indexed.
  rewrite lookup_indexed_from_other; [reflexivity|].
  intros i E. pose proof (num_to_string_not_length (Z.of_nat i)) as N.
  unfold index_key in E; rewrite <- E in N; discriminate N.
Qed.

Lemma length_of_array a l : length_of (Arr a l) = List.length l.
Proof. unfold length_of; rewrite get_array_length; apply Nat2Z.id. Qed.

Lemma map_nth_seq {A B} (f : A -> B) (d : A) (l : list A) :
  List.map (fun i => f (nth i l d)) (seq 0 (List.length l)) = List.map f l.
Proof.
  induction l as [|x l IH] using rev_ind; [reflexivity|].
  rewrite length_app, Nat.add_1_r, seq_S, !map_app; cbn.
  rewrite nth_middle. f_equal.
  rewrite <- IH. apply map_ext_in; intros i Hi.
  apply in_seq in Hi. now rewrite app_nth1 by lia.
Qed.

Lemma elements_array a l : elements (Arr a l) = l.
Proof.
  unfold elements; rewrite length_of_array.
  rewrite <- (map_id l) at 2. rewrite <- (map_nth_seq (fun x => x) Undefined l).
  apply map_ext; intros i; apply get_array_index.
Qed.

Lemma normalized_array a l : normalized (Arr a l) = l.
Proof. unfold normalized; cbn; apply elements_array. Qed.

(** ** Falsy collections *)

(** C1.  On a collection that is [undefined], [null] or otherwise falsy,
    [each], [filter], [map], [find], [findIndex], [some], [first] and
    [last] return [undefined] and leave the state as it was: the predicate
    is not invoked (nothing is logged) and no container is built (nothing
    is allocated).  [size] returns [0], the state untouched as well. *)
Theorem falsy_collection_is_a_no_op
  (iterable predicate context : value) (s : state U) :
  truthy iterable = false ->
  each iterable predicate context s = (Val Undefined, s)
  /\ filter iterable predicate context s = (Val Undefined, s)
  /\ map iterable predicate context s = (Val Undefined, s)
  /\ find iterable predicate context s = (Val Undefined, s)
  /\ findIndex iterable predicate context s = (Val Undefined, s)
  /\ some iterable predicate context s = (Val Undefined, s)
  /\ first iterable s = (Val Undefined, s)
  /\ last iterable s = (Val Undefined, s)
  /\ size iterable s = (Val (Num 0), s).
Proof.
  intros H.
  unfold each, each_k, filter, map, find, findIndex, some, first, last, size, bind.
  rewrite H; repeat split; reflexivity.
Qed.

(** ** [each] *)

Lemma after_after s u1 cs1 u2 cs2 :
  after (after s u1 cs1) u2 cs2 = after s u2 (cs1 ++ cs2).
Proof. unfold after; cbn; now rewrite app_assoc. Qed.

Lemma after_nil s : after s (user s) [] = s.
Proof. destruct s; unfold after; cbn; now rewrite app_nil_r. Qed.

Lemma apply_fun_returns f this xs s :
  returns_normally f ->
  exists v u', apply_fun f this xs s = (Val v, after s u' [mkCall f this xs]).
Proof.
  intros H; destruct (H this xs (user s)) as (v & u' & E).
  exists v, u'; unfold apply_fun; cbn; now rewrite E.
Qed.


Lemma call_with_user {A} f n context x (acc : A) s :
  returns_normally f ->
  exists u',
    call_with (UserFn (Fun f n)) context x acc s
    = (Val acc, after s u' [mkCall f context [x]]).
Proof.
  intros Hf. destruct (apply_fun_returns f context [x] s Hf) as (v & u' & E).
  exists u'. cbn [call_with invoke]. now rewrite (bind_val _ _ _ _ _ E).
Qed.

Lemma forEach_elems_user f n context elems s :
  returns_normally f ->
  exists u',
    forEach_elems elems
      (fun elm acc => call_with (UserFn (Fun f n)) context elm acc) tt s
    = (Val tt, after s u' (List.map (fun elm => mkCall f context [elm]) elems)).
Proof.
  intros Hf; revert s; induction elems as [|elm rest IH]; intros s; cbn [forEach_elems List.map].
  - exists (user s); now rewrite after_nil.
  - destruct (call_with_user f n context elm tt s Hf) as (u1 & E1).
    destruct (IH (after s u1 [mkCall f context [elm]])) as (u2 & E2).
    exists u2. rewrite (bind_val _ _ _ _ _ E1), E2, after_after; reflexivity.
Qed.

(** On a true array, [each] invokes the predicate once per element, in
    ascending index order, with [this = context] and the element as the
    only argument. *)
Lemma each_array a elems f n context s :
  returns_normally f ->
  exists u',
    each (Arr a elems) (Fun f n) context s
    = (Val Undefined,
       after s u' (List.map (fun elm => mkCall f context [elm]) elems)).
Proof.
  intros Hf. destruct (forEach_elems_user f n context elems s Hf) as (u' & E).
  exists u'. unfold each, each_k; cbn [truthy isArrayLike isArray].
  unfold bind; cbn [ret forEach]. now rewrite E.
Qed.

(** On a truthy value that is not array-like, [each] invokes the predicate
    once, on the value itself. *)
Lemma each_single obj f n context s :
  truthy obj = true -> array_like obj = false -> returns_normally f ->
  exists u',
    each obj (Fun f n) context s
    = (Val Undefined, after s u' [mkCall f context [obj]]).
Proof.
  intros Ht Hal Hf. destruct (apply_fun_returns f context [obj] s Hf) as (v & u' & E).
  exists u'. unfold each, each_k; rewrite Ht.
  unfold bind; rewrite (isArrayLike_truthy _ _ Ht), Hal; cbn [call_with invoke].
  unfold bind; now rewrite E.
Qed.

(** C3.  An array-like object that is not a true array has no [forEach]:
    [each] throws a [TypeError] on it before the predicate is invoked at
    all, where the contract has the predicate invoked once per element. *)
Theorem each_array_like_object_throws
  a own inh (predicate context : value) (s : state U) :
  array_like (Obj a own inh) = true ->
  lookup "forEach" (own ++ inh) = None ->
  each (Obj a own inh) predicate context s = (Throw TypeError, s).
Proof.
  intros Hal Hno. unfold each, each_k; cbn [truthy].
  unfold bind. rewrite isArrayLike_array_like by discriminate. rewrite Hal.
  cbn [forEach own_props inherited_props]. now rewrite Hno.
Qed.

(** ** Scanning: [find], [findIndex], [some] *)

Lemma array_like_length v :
  array_like v = true -> get v "length" = Num (Z.of_nat (length_of v)).
Proof.
  unfold array_like, length_of; destruct v; cbn [isArray orb]; intros H;
    try (rewrite get_array_length in *; now rewrite Nat2Z.id);
    destruct (get _ "length"); try (now rewrite andb_false_r in H);
    apply andb_prop in H as [_ H]; apply Z.leb_le in H; now rewrite Z2Nat.id.
Qed.

Lemma array_like_not_null v : array_like v = true -> v <> Null /\ v <> Undefined.
Proof. destruct v; cbn; split; congruence. Qed.

Lemma read_val obj name s :
  obj <> Null -> obj <> Undefined -> read obj name s = (Val (get obj name), s).
Proof. destruct obj; intros; try congruence; reflexivity. Qed.

Lemma subscript_index source i s :
  source <> Null -> source <> Undefined ->
  subscript source (index_value i) s = (Val (get source (index_key i)), s).
Proof. intros; unfold subscript, index_value; now apply read_val. Qed.

Lemma source_of_truthy iterable s :
  truthy iterable = true ->
  exists source,
    source_of iterable s = (Val source, entered iterable s)
    /\ array_like source = true
    /\ elements source = normalized iterable.
Proof.
  intros Ht. unfold source_of, entered, normalized.
  rewrite (bind_val _ _ _ _ _ (isArrayLike_truthy _ s Ht)).
  destruct (array_like iterable) eqn:Hal.
  - exists iterable; auto.
  - exists (Arr (next s) [iterable]).
    split; [reflexivity|split; [reflexivity|apply elements_array]].
Qed.

(** The loop header of the scans: [length] is read, the loop runs
    [length] times when the counter reaches [length]. *)
Lemma scan_header {A} source (k : nat -> Op A) s :
  array_like source = true ->
  countable (length_of source) ->
  (length <- read source "length" ;; n <- iterations length ;; k n) s
  = k (length_of source) s.
Proof.
  intros Hal Hc. destruct (array_like_not_null _ Hal) as [Hn Hu].
  rewrite (bind_val _ _ _ _ _ (read_val source "length" s Hn Hu)).
  rewrite (array_like_length _ Hal). unfold iterations; cbn [to_num].
  apply Z.leb_le in Hc; rewrite Hc, bind_ret.
  now rewrite Nat2Z.id.
Qed.

Lemma scan_header_beyond {A} source (k : nat -> Op A) s :
  array_like source = true ->
  ~ countable (length_of source) ->
  (length <- read source "length" ;; n <- iterations length ;; k n) s
  = (Beyond, s).
Proof.
  intros Hal Hc. destruct (array_like_not_null _ Hal) as [Hn Hu].
  rewrite (bind_val _ _ _ _ _ (read_val source "length" s Hn Hu)).
  rewrite (array_like_length _ Hal). unfold iterations; cbn [to_num].
  destruct (Z.leb_spec (Z.of_nat (length_of source)) (2 ^ 53)) as [H|H];
    [now elim Hc|reflexivity].
Qed.

Lemma countable_dec n : {countable n} + {~ countable n}.
Proof. unfold countable; apply Z_le_dec. Qed.

Lemma invoke_val_truthy predicate context xs s r s' :
  invoke predicate context xs s = (Val r, s') -> truthy predicate = true.
Proof. destruct predicate; cbn; unfold throw; intros H; congruence. Qed.


Lemma test_invoke source predicate context index s r s' :
  source <> Null -> source <> Undefined ->
  invoke predicate context [get source (index_key index)] s = (Val r, s') ->
  test source predicate context index s = (Val (truthy r), s').
Proof.
  intros Hn Hu E. unfold test. rewrite (invoke_val_truthy _ _ _ _ _ _ E).
  rewrite (bind_val _ _ _ _ _ (subscript_index source index s Hn Hu)).
  now rewrite (bind_val _ _ _ _ _ E).
Qed.

Section Scan.

Variables source predicate context : value.
Hypothesis source_not_null : source <> Null.
Hypothesis source_not_undefined : source <> Undefined.

Let element (i : nat) : value := get source (index_key i).





(** [findIndex_loop] and [find_loop] walk in step. *)
Lemma find_loops_in_step indices s :
  snd (find_loop source predicate context indices s)
  = snd (findIndex_loop source predicate context indices s)
  /\ match fst (findIndex_loop source predicate context indices s) with
     | Val (Num z) =>
         exists i, In i indices /\ z = Z.of_nat i
           /\ fst (find_loop source predicate context indices s) = Val (element i)
     | Val Undefined =>
         fst (find_loop source predicate context indices s) = Val Undefined
     | Val _ => False
     | Throw f => fst (find_loop source predicate context indices s) = Throw f
     | Beyond => fst (find_loop source predicate context indices s) = Beyond
     end.
Proof.
  revert s; induction indices as [|i rest IH]; intros s;
    cbn [find_loop findIndex_loop]; [split; reflexivity|].
  destruct (test source predicate context i s) as [[[|]|f|] s1] eqn:T.
  - rewrite !(bind_val _ _ _ _ _ T).
    rewrite (subscript_index source i s1 source_not_null source_not_undefined).
    split; [reflexivity|]. cbn. exists i; repeat split; now left.
  - rewrite !(bind_val _ _ _ _ _ T).
    destruct (IH s1) as [IH1 IH2]. split; [exact IH1|].
    destruct (fst (findIndex_loop source predicate context rest s1)) as [[]| |];
      try exact IH2.
    destruct IH2 as (j & Hj & E1 & E2). exists j; repeat split; auto. now right.
  - rewrite !(bind_throw _ _ _ _ _ T). split; reflexivity.
  - rewrite !(bind_beyond _ _ _ _ T). split; reflexivity.
Qed.

End Scan.

Lemma nth_elements source i :
  (i < length_of source)%nat ->
  nth i (elements source) Undefined = get source (index_key i).
Proof.
  intros H. unfold elements.
  rewrite (nth_indep _ Undefined (get source (index_key 0)))
    by now rewrite length_map, length_seq.
  rewrite (map_nth (fun i => get source (index_key i))), seq_nth by exact H.
  reflexivity.
Qed.

Lemma length_elements source : List.length (elements source) = length_of source.
Proof. unfold elements; now rewrite length_map, length_seq. Qed.

Lemma some_unfold iterable predicate context s source :
  truthy iterable = true ->
  source_of iterable s = (Val source, entered iterable s) ->
  array_like source = true ->
  countable (length_of source) ->
  some iterable predicate context s
  = some_loop source predicate context (seq 0 (length_of source)) (entered iterable s).
Proof.
  intros Ht E Hal Hc. unfold some; rewrite Ht, (bind_val _ _ _ _ _ E).
  now rewrite scan_header.
Qed.

Lemma some_beyond iterable predicate context s source :
  truthy iterable = true ->
  source_of iterable s = (Val source, entered iterable s) ->
  array_like source = true ->
  ~ countable (length_of source) ->
  some iterable predicate context s = (Beyond, entered iterable s).
Proof.
  intros Ht E Hal Hc. unfold some; rewrite Ht, (bind_val _ _ _ _ _ E).
  now rewrite scan_header_beyond.
Qed.

Lemma find_unfold iterable predicate context s source :
  truthy iterable = true ->
  source_of iterable s = (Val source, entered iterable s) ->
  array_like source = true ->
  countable (length_of source) ->
  find iterable predicate context s
  = find_loop source predicate context (seq 0 (length_of source)) (entered iterable s).
Proof.
  intros Ht E Hal Hc. unfold find; rewrite Ht, (bind_val _ _ _ _ _ E).
  now rewrite scan_header.
Qed.

Lemma find_beyond iterable predicate context s source :
  truthy iterable = true ->
  source_of iterable s = (Val source, entered iterable s) ->
  array_like source = true ->
  ~ countable (length_of source) ->
  find iterable predicate context s = (Beyond, entered iterable s).
Proof.
  intros Ht E Hal Hc. unfold find; rewrite Ht, (bind_val _ _ _ _ _ E).
  now rewrite scan_header_beyond.
Qed.

Lemma findIndex_unfold iterable predicate context s source :
  truthy iterable = true ->
  source_of iterable s = (Val source, entered iterable s) ->
  array_like source = true ->
  countable (length_of source) ->
  findIndex iterable predicate context s
  = findIndex_loop source predicate context (seq 0 (length_of source))
      (entered iterable s).
Proof.
  intros Ht E Hal Hc. unfold findIndex; rewrite Ht, (bind_val _ _ _ _ _ E).
  now rewrite scan_header.
Qed.

Lemma findIndex_beyond iterable predicate context s source :
  truthy iterable = true ->
  source_of iterable s = (Val source, entered iterable s) ->
  array_like source = true ->
  ~ countable (length_of source) ->
  findIndex iterable predicate context s = (Beyond, entered iterable s).
Proof.
  intros Ht E Hal Hc. unfold findIndex; rewrite Ht, (bind_val _ _ _ _ _ E).
  now rewrite scan_header_beyond.
Qed.


(** C10, as amended.  From one and the same state, [find] and [findIndex]
    end in the same state, and
    - [findIndex] returns an index [i] only if [find] returns the element
      at position [i] of the normalized sequence;
    - [findIndex] returns [undefined] only if [find] returns [undefined];
    - [findIndex] returns nothing else, and throws only if [find] throws
      the same.
    So [find] returns [undefined] wherever [findIndex] does, and besides
    where the element found is itself [undefined]. *)
Theorem find_findIndex_coherent (iterable predicate context : value) (s : state U) :
  snd (find iterable predicate context s)
  = snd (findIndex iterable predicate context s)
  /\ match fst (findIndex iterable predicate context s) with
     | Val (Num z) =>
         exists i, z = Z.of_nat i
           /\ (i < List.length (normalized iterable))%nat
           /\ fst (find iterable predicate context s)
              = Val (nth i (normalized iterable) Undefined)
     | Val Undefined => fst (find iterable predicate context s) = Val Undefined
     | Val _ => False
     | Throw f => fst (find iterable predicate context s) = Throw f
     | Beyond => fst (find iterable predicate context s) = Beyond
     end.
Proof.
  destruct (truthy iterable) eqn:Ht.
  - destruct (source_of_truthy iterable s Ht) as (source & E & Hal & Hel).
    destruct (array_like_not_null _ Hal) as [Hn Hu].
    destruct (countable_dec (length_of source)) as [Hc|Hc].
    + rewrite (find_unfold _ predicate context _ _ Ht E Hal Hc).
      rewrite (findIndex_unfold _ predicate context _ _ Ht E Hal Hc).
      destruct (find_loops_in_step source predicate context Hn Hu
                  (seq 0 (length_of source)) (entered iterable s)) as [H1 H2].
      split; [exact H1|].
      destruct (fst (findIndex_loop _ _ _ _ _)) as [[]| |]; try exact H2.
      destruct H2 as (i & Hi & -> & H2). apply in_seq in Hi.
      exists i. rewrite <- Hel, length_elements, nth_elements by lia.
      repeat split; [lia|exact H2].
    + rewrite (find_beyond _ predicate context _ _ Ht E Hal Hc).
      rewrite (findIndex_beyond _ predicate context _ _ Ht E Hal Hc).
      split; reflexivity.
  - unfold find, findIndex; rewrite Ht; split; reflexivity.
Qed.

(** ** [map] *)

Lemma lookup_in k ps : In k (List.map fst ps) -> has_key k ps = true.
Proof.
  unfold has_key; induction ps as [|[k' v] ps IH]; cbn; [tauto|].
  intros [->|H]; [now rewrite String.eqb_refl|].
  destruct (k =? k')%string; [reflexivity|now apply IH].
Qed.

Lemma has_truthy obj k :
  truthy obj = true -> has obj k = hasOwnProperty obj k.
Proof. destruct obj; cbn; try discriminate; reflexivity. Qed.

(** What [keys] collects: the own enumerable keys, in enumeration order;
    the keys that are only inherited are dropped. *)
Lemma own_keys obj :
  truthy obj = true ->
  List.filter (has obj) (for_in_keys obj) = List.map fst (own_props obj).
Proof.
  intros Ht. unfold for_in_keys. rewrite filter_app.
  rewrite forallb_filter_id.
  - rewrite <- app_nil_r; f_equal.
    destruct obj; try discriminate; try reflexivity.
    cbn [inherited_props own_props].
    induction (List.map fst inherited) as [|k l IH]; [reflexivity|].
    cbn [List.filter]. destruct (has_key k own) eqn:Hk; cbn [negb]; [exact IH|].
    cbn [List.filter]. rewrite has_truthy by exact Ht.
    unfold hasOwnProperty; cbn [own_props]. now rewrite Hk, andb_false_r.
  - apply forallb_forall; intros k Hk. rewrite has_truthy by exact Ht.
    unfold hasOwnProperty. now rewrite (lookup_in _ _ Hk).
Qed.

Lemma keys_truthy obj s :
  truthy obj = true ->
  keys obj s
  = (Val (Arr (next s) (List.map Str (List.map fst (own_props obj)))), bump s).
Proof. intros Ht; unfold keys, bind, alloc, ret; cbn. now rewrite own_keys. Qed.

Lemma store_at_end result r : store result (List.length result) r = result ++ [r].
Proof. unfold store; now rewrite Nat.ltb_irrefl, Nat.sub_diag. Qed.

Lemma map_loop_absent obj objKeys predicate context n :
  truthy predicate = false ->
  (forall i s, (i < n)%nat ->
     exists k, (if truthy objKeys then subscript objKeys (index_value i)
                else ret (index_value i)) s = (Val k, s)) ->
  forall k m result s, (m + k <= n)%nat ->
    map_loop obj objKeys predicate context (seq m k) result s = (Val result, s).
Proof.
  intros Hp Hkey; induction k as [|k IH]; intros m result s Hm;
    cbn [seq map_loop]; [reflexivity|].
  destruct (Hkey m s) as (key & E); [lia|].
  rewrite (bind_val _ _ _ _ _ E), Hp. unfold bind at 1; cbn [ret].
  apply IH; lia.
Qed.

Lemma indexable_countable n : indexable n -> countable n.
Proof. unfold indexable, countable; lia. Qed.

Lemma set_index_at_end result r s :
  indexable (S (List.length result)) ->
  set_index result (List.length result) r s = (Val (result ++ [r]), s).
Proof.
  unfold indexable, set_index; intros H.
  destruct (Z.ltb_spec (Z.of_nat (List.length result)) (2 ^ 32 - 1)); [|lia].
  now rewrite store_at_end.
Qed.

Lemma map_loop_present obj objKeys predicate context n (key x : nat -> value) :
  indexable n ->
  truthy predicate = true ->
  (forall i s, (i < n)%nat ->
     (if truthy objKeys then subscript objKeys (index_value i)
      else ret (index_value i)) s = (Val (key i), s)) ->
  (forall i s, (i < n)%nat -> subscript obj (key i) s = (Val (x i), s)) ->
  forall k result s, (List.length result + k <= n)%nat ->
    map_loop obj objKeys predicate context (seq (List.length result) k) result s
    = (rs <- invoke_all predicate context
               (List.map (fun i => [x i; key i]) (seq (List.length result) k)) ;;
       ret (result ++ rs)) s.
Proof.
  intros Hn Hp Hkey Hx; induction k as [|k IH]; intros result s Hm;
    cbn [seq map_loop List.map invoke_all].
  - unfold bind, ret; now rewrite app_nil_r.
  - rewrite (bind_val _ _ _ _ _ (Hkey (List.length result) s ltac:(lia))), Hp.
    rewrite bind_assoc, (bind_val _ _ _ _ _ (Hx (List.length result) s ltac:(lia))).
    rewrite !bind_assoc.
    destruct (invoke predicate context [x (List.length result); key (List.length result)] s)
      as [[r| |] s1] eqn:E.
    + rewrite !(bind_val _ _ _ _ _ E).
      rewrite (bind_val _ _ _ _ _ (set_index_at_end result r s1
                                     ltac:(unfold indexable in *; lia))).
      specialize (IH (result ++ [r]) s1). rewrite length_app, Nat.add_1_r in IH.
      rewrite IH by lia. rewrite bind_assoc. unfold bind, ret.
      destruct (invoke_all _ _ _ s1) as [[rs| |] s2]; try reflexivity.
      now rewrite <- app_assoc.
    + now rewrite !(bind_throw _ _ _ _ _ E).
    + now rewrite !(bind_beyond _ _ _ _ E).
Qed.

Lemma length_map_arguments obj :
  List.length (map_arguments obj)
  = if array_like obj then length_of obj else List.length (own_props obj).
Proof.
  unfold map_arguments; destruct (array_like obj);
    now rewrite length_map, ?length_seq.
Qed.

Lemma map_unfold obj predicate context s :
  truthy obj = true ->
  countable (List.length (map_arguments obj)) ->
  exists objKeys n (key x : nat -> value),
    map obj predicate context s
    = (result <- map_loop obj objKeys predicate context (seq 0 n) [] ;;
       ret (Arr (next s) result)) (map_entered obj s)
    /\ (forall i s', (i < n)%nat ->
          (if truthy objKeys then subscript objKeys (index_value i)
           else ret (index_value i)) s' = (Val (key i), s'))
    /\ (forall i s', (i < n)%nat -> subscript obj (key i) s' = (Val (x i), s'))
    /\ List.map (fun i => [x i; key i]) (seq 0 n) = map_arguments obj.
Proof.
  intros Ht Hc. destruct (truthy_not_null _ Ht) as [Hn Hu].
  rewrite length_map_arguments in Hc.
  unfold map, map_entered, map_arguments; rewrite Ht.
  rewrite (bind_val _ _ _ _ _ (eq_refl : alloc s = (Val (next s), bump s))).
  rewrite (bind_val _ _ _ _ _ (isArrayLike_truthy _ _ Ht)).
  destruct (array_like obj) eqn:Hal; cbn [negb].
  - exists (Bool false), (length_of obj), index_value,
      (fun i => get obj (index_key i)).
    rewrite bind_ret. cbn [truthy]. rewrite (scan_header obj _ _ Hal Hc).
    repeat split; intros; now apply subscript_index.
  - set (ks := List.map fst (own_props obj)).
    exists (Arr (S (next s)) (List.map Str ks)), (List.length ks),
      (fun i => Str (nth i ks "")), (fun i => get obj (nth i ks "")).
    rewrite (bind_val _ _ _ _ _ (keys_truthy obj (bump s) Ht)). cbn [truthy next bump].
    fold ks. rewrite scan_header
      by (try reflexivity; rewrite length_of_array, length_map; unfold ks;
          now rewrite length_map).
    rewrite length_of_array, length_map. repeat split.
    + intros i s' Hi. rewrite subscript_index by discriminate.
      rewrite get_array_index.
      rewrite (nth_indep _ Undefined (Str "")) by now rewrite length_map.
      now rewrite (map_nth Str).
    + intros i s' Hi. cbn [subscript]. now apply read_val.
    + rewrite (map_nth_seq (fun k => [get obj k; Str k]) "" ks).
      unfold ks; now rewrite map_map.
Qed.

Lemma length_invoke_all predicate context argss s rs s' :
  invoke_all predicate context argss s = (Val rs, s') ->
  List.length rs = List.length argss.
Proof.
  revert s rs; induction argss as [|xs rest IH]; intros s rs; cbn [invoke_all].
  - unfold ret; intros E; now injection E as <- _.
  - destruct (invoke predicate context xs s) as [[r| |] s1] eqn:E1.
    + rewrite (bind_val _ _ _ _ _ E1).
      destruct (invoke_all predicate context rest s1) as [[rs'| |] s2] eqn:E2.
      * rewrite (bind_val _ _ _ _ _ E2). unfold ret; intros E; injection E as <- <-.
        cbn; f_equal; now apply (IH s1).
      * now rewrite (bind_throw _ _ _ _ _ E2).
      * now rewrite (bind_beyond _ _ _ _ E2).
    + now rewrite (bind_throw _ _ _ _ _ E1).
    + now rewrite (bind_beyond _ _ _ _ E1).
Qed.

Lemma map_present obj predicate context s :
  truthy obj = true -> indexable (List.length (map_arguments obj)) ->
  truthy predicate = true ->
  map obj predicate context s
  = (rs <- invoke_all predicate context (map_arguments obj) ;;
     ret (Arr (next s) rs)) (map_entered obj s).
Proof.
  intros Ht Hc Hp.
  destruct (map_unfold obj predicate context s Ht (indexable_countable _ Hc))
    as (objKeys & n & key & x & E & Hkey & Hx & Hargs).
  rewrite <- Hargs, length_map, length_seq in Hc.
  rewrite E, <- Hargs.
  pose proof (map_loop_present obj objKeys predicate context n key x Hc Hp Hkey Hx
                n [] (map_entered obj s) (le_n _)) as L; cbn [List.length app] in L.
  unfold bind at 1; rewrite L. unfold bind, ret.
  now destruct (invoke_all _ _ _ _) as [[rs| |] s1].
Qed.

Lemma map_absent obj predicate context s :
  truthy obj = true -> countable (List.length (map_arguments obj)) ->
  truthy predicate = false ->
  map obj predicate context s = (Val (Arr (next s) []), map_entered obj s).
Proof.
  intros Ht Hc Hp.
  destruct (map_unfold obj predicate context s Ht Hc)
    as (objKeys & n & key & x & E & Hkey & Hx & Hargs).
  rewrite E.
  assert (L : map_loop obj objKeys predicate context (seq 0 n) [] (map_entered obj s)
              = (Val [], map_entered obj s)).
  { apply (map_loop_absent obj objKeys predicate context n Hp); [|lia].
    intros i s0 Hi; exists (key i); now apply Hkey. }
  now rewrite (bind_val _ _ _ _ _ L).
Qed.

(** C5, as amended.  On a truthy [obj] of at most 2^32 - 1 elements (what
    an array holds), [map] allocates a new array, and
    - when the predicate is present, fills it with what the predicate
      returns, invoked slot after slot on [(element_i, i)] for an
      array-like [obj] and on [(value, key)] over the own enumerable
      properties otherwise: the array it returns has as many slots as
      [obj] has elements;
    - when the predicate is absent, stores nothing: the array it returns
      is empty, whatever [obj] holds. *)
Theorem map_contract (obj predicate context : value) (s : state U) :
  truthy obj = true ->
  indexable (List.length (map_arguments obj)) ->
  (truthy predicate = true ->
   map obj predicate context s
   = (rs <- invoke_all predicate context (map_arguments obj) ;;
      ret (Arr (next s) rs)) (map_entered obj s))
  /\ (truthy predicate = true ->
      forall r s', map obj predicate context s = (Val r, s') ->
      exists rs, r = Arr (next s) rs
                 /\ List.length rs = List.length (map_arguments obj))
  /\ (truthy predicate = false ->
      map obj predicate context s = (Val (Arr (next s) []), map_entered obj s)).
Proof.
  intros Ht Hc. split; [now apply map_present|].
  split; [|now apply map_absent, indexable_countable].
  intros Hp r s'. rewrite (map_present _ _ _ _ Ht Hc Hp).
  destruct (invoke_all predicate context (map_arguments obj) (map_entered obj s))
    as [[rs| |] s1] eqn:I.
  - rewrite (bind_val _ _ _ _ _ I). unfold ret; intros R; injection R as <- _.
    exists rs; split; [reflexivity|]. now apply (length_invoke_all _ _ _ _ _ _ I).
  - now rewrite (bind_throw _ _ _ _ _ I).
  - now rewrite (bind_beyond _ _ _ _ I).
Qed.

(** ** [flatten] *)




(** [flattenInternal] in the words of the source. *)
Lemma flattenInternal_eq room output element s :
  flattenInternal room output element s
  = (if truthy element then
       each_k element
         (Closure (fun obj output =>
            if isArray obj then
              nested_call room (fun room' => flattenInternal room' output obj)
            else ret (output ++ [obj])))
         Undefined output
     else ret output) s.
Proof.
  destruct element as [ | |b|z| |str|a elems|a own inh|a arity];
    try (cbn [flattenInternal];
         match goal with |- context [truthy ?v] => destruct (truthy v) eqn:Ht end;
         [|reflexivity];
         unfold each_k; rewrite Ht;
         rewrite !(bind_val _ _ _ _ _ (isArrayLike_truthy _ s Ht));
         match goal with |- context [array_like ?v] => destruct (array_like v) end;
         reflexivity).
  (* a true array *)
  cbn [flattenInternal truthy]. unfold each_k; cbn [truthy].
  rewrite (bind_val _ _ _ _ _ (isArrayLike_truthy (Arr a elems) s eq_refl)).
  cbn [array_like isArray orb forEach].
  revert output s; induction elems as [|obj rest IH]; intros output s;
    cbn [forEach_elems]; [reflexivity|].
  cbn [call_with].
  destruct ((if isArray obj then
               nested_call room (fun room' => flattenInternal room' output obj)
             else ret (output ++ [obj])) s)
    as [[out| |] s1] eqn:E.
  - rewrite !(bind_val _ _ _ _ _ E). apply IH.
  - now rewrite !(bind_throw _ _ _ _ _ E).
  - now rewrite !(bind_beyond _ _ _ _ E).
Qed.













(** ** [uniqueId] *)





(** ** [union] *)

Lemma indexOf_from_negative i l x :
  0 <= i ->
  (indexOf_from i l x <? 0) = negb (existsb (fun y => strict_eq y x) l).
Proof.
  revert i; induction l as [|y l IH]; intros i Hi; cbn [indexOf_from existsb].
  - reflexivity.
  - destruct (strict_eq y x); cbn [orb negb]; [apply Z.ltb_ge; lia|apply IH; lia].
Qed.

Lemma union_visit_add_new obj result s :
  union_visit obj result s = (Val (add_new result obj), s).
Proof.
  unfold union_visit, add_new, array_indexOf.
  rewrite indexOf_from_negative by lia.
  now destruct (existsb _ result).
Qed.

Lemma forEach_elems_union elems result s :
  forEach_elems elems
    (fun elm acc => call_with (Closure union_visit) Undefined elm acc) result s
  = (Val (fold_left add_new elems result), s).
Proof.
  revert result; induction elems as [|x l IH]; intros result; cbn [forEach_elems fold_left].
  - reflexivity.
  - cbn [call_with]. rewrite (bind_val _ _ _ _ _ (union_visit_add_new x result s)).
    apply IH.
Qed.

Lemma each_k_union arr result s :
  truthy arr = true -> plain arr ->
  each_k arr (Closure union_visit) Undefined result s
  = (Val (fold_left add_new (normalized arr) result), s).
Proof.
  intros Ht [Hf|[Ha|Hn]]; [congruence| |].
  - destruct arr; try discriminate Ha. rewrite normalized_array.
    unfold each_k; cbn [truthy].
    rewrite (bind_val _ _ _ _ _ (isArrayLike_truthy (Arr a elems) s eq_refl)).
    cbn [array_like isArray orb forEach]. apply forEach_elems_union.
  - unfold each_k, normalized; rewrite Ht.
    rewrite (bind_val _ _ _ _ _ (isArrayLike_truthy arr s Ht)), Hn.
    cbn [call_with fold_left]. apply union_visit_add_new.
Qed.

Lemma union_unfold arrs s :
  union arrs s
  = (result <- forEach_elems arrs
       (fun arr result =>
          if truthy arr then each_k arr (Closure union_visit) Undefined result
          else ret result) [] ;;
     ret (Arr (S (next s)) result)) (bump (bump s)).
Proof. reflexivity. Qed.







(** C7.  [union] goes through its arguments with [each]: at the first
    argument that is an array-like object without [forEach] it throws a
    [TypeError], where the contract has the elements of that argument taken
    up as candidates. *)
Theorem union_array_like_object_throws
  (pre post : list value) a own inh (s : state U) :
  Forall plain pre ->
  array_like (Obj a own inh) = true ->
  lookup "forEach" (own ++ inh) = None ->
  union (pre ++ Obj a own inh :: post) s = (Throw TypeError, bump (bump s)).
Proof.
  intros Hpre Hal Hno. rewrite union_unfold.
  apply bind_throw. generalize (@nil value) as result.
  induction Hpre as [|arr rest Harr _ IH]; intros result; cbn [app forEach_elems].
  - apply bind_throw. cbn [truthy]. unfold each_k; cbn [truthy].
    rewrite (bind_val _ _ _ _ _ (isArrayLike_truthy (Obj a own inh) _ eq_refl)), Hal.
    cbn [forEach own_props inherited_props]. now rewrite Hno.
  - destruct (truthy arr) eqn:Ht.
    + rewrite (bind_val _ _ _ _ _ (each_k_union arr result _ Ht Harr)). apply IH.
    + rewrite bind_ret. apply IH.
Qed.

(** ** [omit] *)

Lemma lookup_app_none k ps qs :
  lookup k ps = None -> lookup k (ps ++ qs) = lookup k qs.
Proof.
  induction ps as [|[k' v] ps IH]; cbn; [auto|].
  destruct (k =? k')%string; [discriminate|exact IH].
Qed.

Lemma index_never_negative key fields :
  (string_indexOf fields key <? 0) = match String.index 0 key fields with
                                     | Some _ => false
                                     | None => true
                                     end.
Proof.
  unfold string_indexOf. destruct (String.index 0 key fields); [|reflexivity].
  apply Z.ltb_ge; lia.
Qed.

Lemma set_prop_fresh ps k v : lookup k ps = None -> set_prop ps k v = ps ++ [(k, v)].
Proof.
  induction ps as [|[k' v'] ps IH]; cbn; [reflexivity|].
  destruct (k =? k')%string; [discriminate|]. intros H; now rewrite IH.
Qed.

Lemma lookup_filter_none k keep ps :
  lookup k ps = None -> lookup k (List.filter keep ps) = None.
Proof.
  induction ps as [|[k' v'] ps IH]; cbn; [reflexivity|].
  destruct (k =? k')%string eqn:E; [discriminate|]. intros H.
  destruct (keep (k', v')); cbn; [rewrite E|]; now apply IH.
Qed.

Lemma lookup_not_in k ps : ~ In k (List.map fst ps) -> lookup k ps = None.
Proof.
  induction ps as [|[k' v'] ps IH]; cbn; [reflexivity|]. intros H.
  destruct (String.eqb_spec k k') as [->|_]; [tauto|]. apply IH; tauto.
Qed.

Section Omit.

Variables (a : addr) (own inh : list (string * value)) (fields : value).
Hypothesis method_not_shadowed : lookup "hasOwnProperty" (own ++ inh) = None.
Hypothesis fields_is_a_list : truthy fields = false \/ isArray fields = true.
Hypothesis no_proto_key : lookup "__proto__" own = None.

Let obj := Obj a own inh.
Let keep (kv : string * value) : bool := not_listed fields (fst kv).

Lemma omit_asks_hasOwnProperty k s :
  call_hasOwnProperty obj k s = (Val (Bool (has_key k own)), s).
Proof.
  unfold call_hasOwnProperty, obj; cbn [own_props inherited_props].
  rewrite method_not_shadowed. unfold hasOwnProperty; cbn [own_props].
  now rewrite andb_false_r, orb_false_r.
Qed.

Lemma omit_asks_fields k s :
  (if negb (truthy fields) then ret true
   else i <- indexOf fields k ;; less i (Num 0)) s
  = (Val (not_listed fields k), s).
Proof.
  destruct fields_is_a_list as [Hf|Ha].
  - rewrite Hf. destruct fields; try reflexivity; discriminate Hf.
  - destruct fields; try discriminate Ha. cbn [truthy negb indexOf not_listed].
    rewrite bind_ret. unfold less, array_indexOf; cbn [to_num].
    now rewrite indexOf_from_negative by lia.
Qed.

Lemma omit_loop_inherited ks result s :
  Forall (fun k => has_key k own = false) ks ->
  omit_loop obj fields ks result s = (Val result, s).
Proof.
  induction 1 as [|k ks Hk _ IH]; cbn [omit_loop]; [reflexivity|].
  rewrite (bind_val _ _ _ _ _ (omit_asks_hasOwnProperty k s)), Hk.
  cbn [truthy]. now rewrite !bind_ret.
Qed.

Lemma omit_loop_own rest todo :
  forall done s,
    own = done ++ todo ->
    NoDup (List.map fst own) ->
    omit_loop obj fields (List.map fst todo ++ rest) (List.filter keep done) s
    = omit_loop obj fields rest (List.filter keep own) s.
Proof.
  induction todo as [|[k v] todo IH]; intros done s Hown Hnd.
  - rewrite app_nil_r in Hown; now subst.
  - cbn [List.map fst app omit_loop].
    assert (Hfresh : lookup k done = None).
    { apply lookup_not_in. rewrite Hown, map_app in Hnd; cbn in Hnd.
      apply NoDup_remove_2 in Hnd. intros Hin; apply Hnd, in_or_app; now left. }
    assert (Hget : get obj k = v).
    { unfold get, obj; cbn [own_props]. rewrite Hown, (lookup_app_none _ _ _ Hfresh).
      cbn [lookup]. now rewrite String.eqb_refl. }
    assert (Hhas : has_key k own = true).
    { apply lookup_in. rewrite Hown, map_app. apply in_or_app; right; now left. }
    rewrite (bind_val _ _ _ _ _ (omit_asks_hasOwnProperty k s)), Hhas.
    cbn [truthy]. rewrite (bind_val _ _ _ _ _ (omit_asks_fields k s)).
    specialize (IH (done ++ [(k, v)]) s).
    rewrite <- app_assoc in IH; specialize (IH Hown Hnd).
    rewrite filter_app in IH; cbn [List.filter] in IH.
    unfold keep at 2 in IH; cbn [fst] in IH.
    assert (Hput : forall result x s0,
               put result k x s0 = (Val (set_prop result k x), s0)).
    { intros result x s0. unfold put.
      destruct (String.eqb_spec k "__proto__") as [->|_]; [|reflexivity].
      unfold has_key in Hhas; now rewrite no_proto_key in Hhas. }
    destruct (not_listed fields k).
    + rewrite bind_assoc.
      rewrite (bind_val _ _ _ _ _ (read_val obj k s ltac:(discriminate) ltac:(discriminate))).
      rewrite (bind_val _ _ _ _ _ (Hput _ _ _)).
      rewrite Hget, set_prop_fresh by now apply lookup_filter_none.
      exact IH.
    + rewrite bind_ret. now rewrite app_nil_r in IH.
Qed.

(** With a true array for [fields], or none, [omit] does return a new
    object of the own enumerable properties whose key is not listed, in
    their order; what is only inherited is left behind. *)
Lemma omit_listed s :
  NoDup (List.map fst own) ->
  omit obj fields s = (Val (Obj (next s) (List.filter keep own) []), bump s).
Proof.
  intros Hnd. unfold omit; cbn [truthy obj].
  rewrite (bind_val _ _ _ _ _ (eq_refl : alloc s = (Val (next s), bump s))).
  unfold for_in_keys; cbn [own_props inherited_props]. fold obj.
  pose proof (omit_loop_own
                (List.filter (fun k => negb (has_key k own)) (List.map fst inh))
                own [] (bump s) eq_refl Hnd) as E; cbn [List.filter] in E.
  assert (Hinh : Forall (fun k => has_key k own = false)
                   (List.filter (fun k => negb (has_key k own)) (List.map fst inh))).
  { apply Forall_forall; intros k Hk. apply filter_In in Hk as [_ Hk].
    now apply negb_true_iff in Hk. }
  rewrite (omit_loop_inherited _ (List.filter keep own) (bump s) Hinh) in E.
  now rewrite (bind_val _ _ _ _ _ E).
Qed.

End Omit.

(** C4.  With a single key for [fields], [omit] asks [fields.indexOf(key)],
    which on a string searches for a substring: a property whose key occurs
    inside [fields] is dropped although it is not the key [fields] names.
    The contract has it kept. *)
Theorem omit_single_key_drops_substrings
  a (k : string) (v : value) (fields : string) (s : state U) :
  k <> fields ->
  String.index 0 k fields <> None ->
  k <> "hasOwnProperty" ->
  omit (Obj a [(k, v)] []) (Str fields) s = (Val (Obj (next s) [] []), bump s).
Proof.
  intros Hne Hsub Hk.
  assert (Hf : truthy (Str fields) = true).
  { destruct fields; [|reflexivity]. destruct k; cbn in Hsub; congruence. }
  assert (H1 : call_hasOwnProperty (Obj a [(k, v)] []) k (bump s) = (Val (Bool true), bump s)).
  { unfold call_hasOwnProperty; cbn [own_props inherited_props app lookup].
    apply String.eqb_neq in Hk. rewrite String.eqb_sym, Hk.
    unfold hasOwnProperty, has_key; cbn [own_props lookup].
    now rewrite String.eqb_refl. }
  assert (H2 : less (Num (string_indexOf fields k)) (Num 0) (bump s)
               = (Val false, bump s)).
  { unfold less; cbn [to_num].
    rewrite index_never_negative. now destruct (String.index 0 k fields). }
  unfold omit. change (truthy (Obj a [(k, v)] [])) with true; cbv iota.
  rewrite (bind_val _ _ _ _ _ (eq_refl : alloc s = (Val (next s), bump s))).
  unfold for_in_keys; cbn [own_props inherited_props List.map fst app List.filter omit_loop].
  rewrite Hf; cbn [negb].
  rewrite !bind_assoc, (bind_val _ _ _ _ _ H1).
  change (truthy (Bool true)) with true; cbv iota.
  cbn [indexOf]. rewrite !bind_assoc, bind_ret, (bind_val _ _ _ _ _ H2).
  reflexivity.
Qed.

(** ** Returning normally *)










Lemma minus_one_countable n s :
  countable n -> minus_one (Num (Z.of_nat n)) s = (Val (Num (Z.of_nat n - 1)), s).
Proof.
  unfold countable, minus_one; intros Hc; cbn [to_num].
  destruct (Z.leb_spec (Z.abs (Z.of_nat n)) (2 ^ 53)); [reflexivity|lia].
Qed.



(** ** Further properties of the helpers *)

Lemma bind_ret_r {A} (m : Op A) s : bind m ret s = m s.
Proof. unfold bind, ret. now destruct (m s) as [[a| |] s']. Qed.

(** On a truthy collection that is a true array or not array-like, [each]
    is [forEach] over the normalized sequence. *)
Lemma each_k_normalized {A} obj (k : value -> A -> Op A) context acc s :
  truthy obj = true -> plain obj ->
  each_k obj (Closure k) context acc s = forEach_elems (normalized obj) k acc s.
Proof.
  intros Ht [Hf|[Ha|Hn]]; [congruence| |]; unfold each_k; rewrite Ht;
    rewrite (bind_val _ _ _ _ _ (isArrayLike_truthy obj s Ht)).
  - destruct obj; try discriminate Ha. now rewrite normalized_array.
  - unfold normalized; rewrite Hn. cbn [call_with forEach_elems].
    now rewrite bind_ret_r.
Qed.

(** X1.  On a truthy collection that is a true array or is not array-like,
    [each] invokes a function predicate once per element of the normalized
    sequence, in order, with [this = context] and the element as the only
    argument, and returns [undefined]. *)
Theorem each_invokes_once_per_element obj f n context (s : state U) :
  truthy obj = true -> plain obj -> returns_normally f ->
  exists u',
    each obj (Fun f n) context s
    = (Val Undefined,
       after s u' (List.map (fun elm => mkCall f context [elm]) (normalized obj))).
Proof.
  intros Ht [Hf|[Ha|Hn]] Hret; [congruence| |].
  - destruct obj; try discriminate Ha. rewrite normalized_array.
    now apply each_array.
  - unfold normalized; rewrite Hn. now apply each_single.
Qed.

Lemma filter_pass predicate context xs :
  truthy predicate = true ->
  forall acc s,
    forEach_elems xs
      (filter_visit predicate context) acc s
    = (rs <- invoke_all predicate context (List.map (fun x => [x]) xs) ;;
       ret (acc ++ accepted xs rs)) s.
Proof.
  intros Hp; induction xs as [|x xs IH]; intros acc s;
    cbn [forEach_elems List.map invoke_all].
  - unfold bind, ret; cbn. now rewrite app_nil_r.
  - unfold filter_visit at 1. rewrite Hp, !bind_assoc.
    destruct (invoke predicate context [x] s) as [[r| |] s1] eqn:E.
    + rewrite !(bind_val _ _ _ _ _ E), bind_assoc.
      destruct (truthy r) eqn:Hr; rewrite bind_ret, IH; unfold bind, ret;
        destruct (invoke_all _ _ _ s1) as [[rs| |] s2]; try reflexivity;
        cbn [accepted]; rewrite Hr; [now rewrite <- app_assoc|reflexivity].
    + now rewrite !(bind_throw _ _ _ _ _ E).
    + now rewrite !(bind_beyond _ _ _ _ E).
Qed.

Lemma filter_pass_absent predicate context xs :
  truthy predicate = false ->
  forall acc s,
    forEach_elems xs
      (filter_visit predicate context) acc s
    = (Val acc, s).
Proof.
  intros Hp; induction xs as [|x xs IH]; intros acc s; cbn [forEach_elems];
    [reflexivity|]. unfold filter_visit at 1. rewrite Hp, bind_ret. apply IH.
Qed.

Lemma filter_unfold iterable predicate context s :
  truthy iterable = true -> plain iterable ->
  filter iterable predicate context s
  = (result <- forEach_elems (normalized iterable)
       (filter_visit predicate context) [] ;;
     ret (Arr (next s) result)) (bump s).
Proof.
  intros Ht Hplain. unfold filter; rewrite Ht.
  rewrite (bind_val _ _ _ _ _ (eq_refl : alloc s = (Val (next s), bump s))).
  unfold bind at 1 2. now rewrite each_k_normalized.
Qed.

(** X2.  On a truthy collection that is a true array or is not array-like,
    [filter] invokes the predicate on every element of the normalized
    sequence, in order, and returns a new array of the elements it answered
    truthy for, in their order; without a predicate it returns a new empty
    array. *)
Theorem filter_keeps_the_accepted_elements
  (iterable predicate context : value) (s : state U) :
  truthy iterable = true -> plain iterable ->
  (truthy predicate = true ->
   filter iterable predicate context s
   = (rs <- invoke_all predicate context
              (List.map (fun x => [x]) (normalized iterable)) ;;
      ret (Arr (next s) (accepted (normalized iterable) rs))) (bump s))
  /\ (truthy predicate = false ->
      filter iterable predicate context s = (Val (Arr (next s) []), bump s)).
Proof.
  intros Ht Hplain; split; intros Hp; rewrite filter_unfold by assumption.
  - unfold bind at 1. rewrite (filter_pass predicate context _ Hp).
    unfold bind, ret. now destruct (invoke_all _ _ _ _) as [[rs| |] s1].
  - now rewrite (bind_val _ _ _ _ _ (filter_pass_absent predicate context _ Hp [] _)).
Qed.

(** X3.  On a truthy collection [first] returns the first element of the
    normalized sequence and [last], when the sequence has at most 2^53
    elements (up to where [length - 1] is exact), the last one:
    [undefined] when an array-like collection is empty, the collection
    itself when it is not array-like; they invoke and allocate nothing. *)
Theorem first_and_last_of_the_sequence (iterable : value) (s : state U) :
  truthy iterable = true ->
  first iterable s = (Val (hd Undefined (normalized iterable)), s)
  /\ (countable (List.length (normalized iterable)) ->
      last iterable s = (Val (List.last (normalized iterable) Undefined), s)).
Proof.
  intros Ht. destruct (truthy_not_null _ Ht) as [Hn Hu].
  unfold first, last, normalized; rewrite Ht.
  rewrite !(bind_val _ _ _ _ _ (isArrayLike_truthy iterable s Ht)).
  destruct (array_like iterable) eqn:Hal; [|split; reflexivity].
  rewrite !(bind_val _ _ _ _ _ (read_val iterable "length" s Hn Hu)).
  rewrite (array_like_length _ Hal). unfold less; cbn [to_num]; rewrite !bind_ret.
  rewrite length_elements.
  unfold elements. destruct (length_of iterable) as [|m] eqn:Hlen.
  - split; reflexivity.
  - replace (0 <? Z.of_nat (S m)) with true by (symmetry; apply Z.ltb_lt; lia).
    split.
    + cbn [subscript seq List.map hd]. now rewrite (read_val _ _ _ Hn Hu).
    + intros Hc.
      rewrite (bind_val _ _ _ _ _ (read_val iterable "length" s Hn Hu)).
      rewrite (array_like_length _ Hal), Hlen.
      rewrite (bind_val _ _ _ _ _ (minus_one_countable _ s Hc)).
      cbn [subscript]. rewrite (read_val _ _ _ Hn Hu).
      rewrite seq_S, map_app. cbn [List.map Nat.add]. rewrite last_last.
      unfold index_key. now replace (Z.of_nat (S m) - 1) with (Z.of_nat m) by lia.
Qed.

(** X4.  On a truthy collection [size] returns the length of the
    normalized sequence: the [length] of an array-like collection, 1 for
    anything else. *)
Theorem size_counts_the_sequence (iterable : value) (s : state U) :
  truthy iterable = true ->
  size iterable s
  = (Val (Num (Z.of_nat (List.length (normalized iterable)))), entered iterable s).
Proof.
  intros Ht. destruct (source_of_truthy iterable s Ht) as (source & E & Hal & Hel).
  destruct (array_like_not_null _ Hal) as [Hn Hu].
  unfold size; rewrite Ht, (bind_val _ _ _ _ _ E), (read_val _ _ _ Hn Hu).
  now rewrite (array_like_length _ Hal), <- Hel, length_elements.
Qed.

(** X5.  [isEmpty] and [size] agree on every value: [isEmpty] answers
    [true] exactly where [size] returns 0.  In particular a plain object
    without a [length] is never empty, and counts as one element. *)
Theorem isEmpty_iff_size_is_zero (iterable : value) (s : state U) :
  fst (isEmpty iterable s) = Val true <-> fst (size iterable s) = Val (Num 0).
Proof.
  unfold isEmpty, size. destruct (truthy iterable) eqn:Ht; cbn [negb];
    [|split; reflexivity].
  destruct (truthy_not_null _ Ht) as [Hn Hu].
  rewrite (bind_val _ _ _ _ _ (read_val iterable "length" s Hn Hu)).
  destruct (source_of_truthy iterable s Ht) as (source & E & Hal & Hel).
  destruct (array_like_not_null _ Hal) as [Hn' Hu'].
  rewrite (bind_val _ _ _ _ _ E), (read_val _ _ _ Hn' Hu').
  rewrite (array_like_length _ Hal), <- length_elements, Hel.
  unfold normalized, ret; cbn [fst]. destruct (array_like iterable) eqn:Hali.
  - rewrite (array_like_length _ Hali), length_elements. cbn [strict_eq].
    split; intros H; injection H as H; f_equal.
    + apply Z.eqb_eq in H. now rewrite H.
    + now apply Z.eqb_eq.
  - cbn [List.length]. split; [|discriminate]. intros H; exfalso; injection H as H.
    unfold array_like in Hali.
    destruct (get iterable "length") as [ | |b|z| |t|a l|a o i0|a n] eqn:G;
      try discriminate H.
    cbn [strict_eq] in H. apply Z.eqb_eq in H; subst z.
    destruct iterable; cbn in Hali; try discriminate Hali.
    unfold get in G; cbn [own_props inherited_props] in G.
    unfold indexed in G.
    rewrite lookup_indexed_from_other in G
      by (intros j Ej; pose proof (num_to_string_not_length (Z.of_nat j)) as N;
          unfold index_key in Ej; rewrite <- Ej in N; discriminate N).
    cbn in G. injection G as G. destruct s0; [discriminate Ht|discriminate G].
Qed.

Lemma some_findIndex_loops_in_step source predicate context indices s :
  source <> Null -> source <> Undefined ->
  snd (some_loop source predicate context indices s)
  = snd (findIndex_loop source predicate context indices s)
  /\ match fst (findIndex_loop source predicate context indices s) with
     | Val (Num _) =>
         fst (some_loop source predicate context indices s) = Val (Bool true)
     | Val Undefined =>
         fst (some_loop source predicate context indices s) = Val Undefined
     | Val _ => False
     | Throw f => fst (some_loop source predicate context indices s) = Throw f
     | Beyond => fst (some_loop source predicate context indices s) = Beyond
     end.
Proof.
  intros Hn Hu. revert s; induction indices as [|i rest IH]; intros s;
    cbn [some_loop findIndex_loop]; [split; reflexivity|].
  destruct (test source predicate context i s) as [[[|]|f|] s1] eqn:T.
  - rewrite !(bind_val _ _ _ _ _ T). split; reflexivity.
  - rewrite !(bind_val _ _ _ _ _ T). apply IH.
  - rewrite !(bind_throw _ _ _ _ _ T). split; reflexivity.
  - rewrite !(bind_beyond _ _ _ _ T). split; reflexivity.
Qed.

(** X6.  [some] and [findIndex] are coherent on every input: run from the
    same state they end in the same state, [some] returns [true] exactly
    when [findIndex] returns an index, and [undefined] exactly when
    [findIndex] does. *)
Theorem some_iff_findIndex_finds (iterable predicate context : value) (s : state U) :
  snd (some iterable predicate context s) = snd (findIndex iterable predicate context s)
  /\ (fst (some iterable predicate context s) = Val (Bool true)
      <-> exists z, fst (findIndex iterable predicate context s) = Val (Num z))
  /\ (fst (some iterable predicate context s) = Val Undefined
      <-> fst (findIndex iterable predicate context s) = Val Undefined).
Proof.
  destruct (truthy iterable) eqn:Ht.
  - destruct (source_of_truthy iterable s Ht) as (source & E & Hal & _).
    destruct (array_like_not_null _ Hal) as [Hn Hu].
    destruct (countable_dec (length_of source)) as [Hc|Hc].
    + rewrite (some_unfold _ predicate context _ _ Ht E Hal Hc).
      rewrite (findIndex_unfold _ predicate context _ _ Ht E Hal Hc).
      destruct (some_findIndex_loops_in_step source predicate context
                  (seq 0 (length_of source)) (entered iterable s) Hn Hu) as [H1 H2].
      split; [exact H1|].
      destruct (fst (findIndex_loop _ _ _ _ _)) as [[ | |b|z| |t|a l|a o i|a n]|f|];
        try contradiction; rewrite H2; repeat split;
        try discriminate; try (intros (z' & Hz); discriminate Hz); eauto.
    + rewrite (some_beyond _ predicate context _ _ Ht E Hal Hc).
      rewrite (findIndex_beyond _ predicate context _ _ Ht E Hal Hc). cbn.
      repeat split; try discriminate; intros (z & Hz); discriminate Hz.
  - unfold some, findIndex; rewrite Ht; cbn.
    repeat split; try discriminate; intros (z & Hz); discriminate Hz.
Qed.

Lemma test_computes source f n g context index s :
  source <> Null -> source <> Undefined -> computes f g ->
  test source (Fun f n) context index s
  = (Val (truthy (g [get source (index_key index)])),
     after s (user s) [mkCall f context [get source (index_key index)]]).
Proof.
  intros Hn Hu Hg. apply test_invoke; [assumption..|].
  cbn [invoke]. unfold apply_fun; cbn. now rewrite Hg.
Qed.

Lemma scans_compute source f n g context :
  source <> Null -> source <> Undefined -> computes f g ->
  forall k m s,
    fst (find_loop source (Fun f n) context (seq m k) s)
    = Val (match List.find (fun x => truthy (g [x]))
                   (List.map (fun i => get source (index_key i)) (seq m k)) with
           | Some x => x
           | None => Undefined
           end)
    /\ fst (findIndex_loop source (Fun f n) context (seq m k) s)
       = Val (match first_index (fun x => truthy (g [x]))
                      (List.map (fun i => get source (index_key i)) (seq m k)) with
              | Some i => index_value (m + i)
              | None => Undefined
              end)
    /\ fst (some_loop source (Fun f n) context (seq m k) s)
       = Val (if existsb (fun x => truthy (g [x]))
                   (List.map (fun i => get source (index_key i)) (seq m k))
              then Bool true else Undefined).
Proof.
  intros Hn Hu Hg; induction k as [|k IH]; intros m s;
    cbn [seq find_loop findIndex_loop some_loop List.map List.find first_index existsb];
    [repeat split|].
  rewrite !(bind_val _ _ _ _ _ (test_computes source f n g context m s Hn Hu Hg)).
  destruct (truthy (g [get source (index_key m)])); cbn [orb].
  - rewrite (subscript_index source m _ Hn Hu), Nat.add_0_r. repeat split.
  - destruct (IH (S m) (after s (user s) [mkCall f context [get source (index_key m)]]))
      as (H1 & H2 & H3).
    rewrite H1, H2, H3. repeat split.
    destruct (first_index _ _); cbn [option_map]; [|reflexivity].
    now rewrite Nat.add_succ_r.
Qed.

(** X7.  With a predicate that computes its answer from the element alone,
    on a truthy collection of at most 2^53 elements (what the loop counter
    counts up to), [find] returns the first element of the normalized
    sequence it answers truthy for, [findIndex] the position of that
    element, [some] whether there is one; each returns [undefined] when
    there is none. *)
Theorem scans_with_a_pure_predicate
  (iterable context : value) f n (g : list value -> value) (s : state U) :
  truthy iterable = true ->
  countable (List.length (normalized iterable)) ->
  computes f g ->
  fst (find iterable (Fun f n) context s)
  = Val (match List.find (fun x => truthy (g [x])) (normalized iterable) with
         | Some x => x
         | None => Undefined
         end)
  /\ fst (findIndex iterable (Fun f n) context s)
     = Val (match first_index (fun x => truthy (g [x])) (normalized iterable) with
            | Some i => Num (Z.of_nat i)
            | None => Undefined
            end)
  /\ fst (some iterable (Fun f n) context s)
     = Val (if existsb (fun x => truthy (g [x])) (normalized iterable)
            then Bool true else Undefined).
Proof.
  intros Ht Hc Hg. destruct (source_of_truthy iterable s Ht) as (source & E & Hal & Hel).
  destruct (array_like_not_null _ Hal) as [Hn Hu].
  rewrite <- Hel, length_elements in Hc.
  rewrite (find_unfold _ _ context _ _ Ht E Hal Hc).
  rewrite (findIndex_unfold _ _ context _ _ Ht E Hal Hc).
  rewrite (some_unfold _ _ context _ _ Ht E Hal Hc).
  rewrite <- Hel. unfold elements.
  exact (scans_compute source f n g context Hn Hu Hg (length_of source) 0%nat
           (entered iterable s)).
Qed.

(** X8.  With a true array of keys for [fields], or none, [omit] of an
    object that has no key [__proto__] of its own (assigning to that key
    adds no property) returns a new object that holds the own properties
    of [obj] whose key is not listed, in their order and with their
    values, and nothing that [obj] only inherits.  Without [fields] it is
    a shallow copy. *)
Theorem omit_drops_the_listed_keys a own inh (fields : value) (s : state U) :
  lookup "hasOwnProperty" (own ++ inh) = None ->
  truthy fields = false \/ isArray fields = true ->
  lookup "__proto__" own = None ->
  NoDup (List.map fst own) ->
  omit (Obj a own inh) fields s
  = (Val (Obj (next s) (List.filter (fun kv => not_listed fields (fst kv)) own) []),
     bump s)
  /\ (truthy fields = false ->
      omit (Obj a own inh) fields s = (Val (Obj (next s) own []), bump s)).
Proof.
  intros Hm Hf Hproto Hnd. split; [now apply omit_listed|].
  intros Hfalse. rewrite (omit_listed a own inh fields Hm Hf Hproto s Hnd). do 3 f_equal.
  apply forallb_filter_id, forallb_forall. intros kv _.
  destruct fields; try reflexivity; discriminate Hfalse.
Qed.







(** ** [extend] *)

Lemma lookup_set_prop k ps k' v :
  lookup k (set_prop ps k' v) = if (k =? k')%string then Some v else lookup k ps.
Proof.
  induction ps as [|[k0 v0] ps IH]; cbn [set_prop lookup].
  - now destruct (k =? k')%string.
  - destruct (String.eqb_spec k' k0) as [->|Hne]; cbn [lookup].
    + now destruct (k =? k0)%string.
    + rewrite IH. destruct (String.eqb_spec k k0) as [->|_]; [|reflexivity].
      apply String.eqb_neq in Hne. now rewrite String.eqb_sym, Hne.
Qed.

Lemma lookup_none_not_in k ps : lookup k ps = None -> ~ In k (List.map fst ps).
Proof.
  intros H Hin. apply lookup_in in Hin. unfold has_key in Hin. now rewrite H in Hin.
Qed.

Lemma keys_set_prop ps k v :
  List.map fst (set_prop ps k v)
  = if has_key k ps then List.map fst ps else List.map fst ps ++ [k].
Proof.
  unfold has_key. induction ps as [|[k0 v0] ps IH]; cbn [set_prop lookup List.map fst app];
    [reflexivity|].
  destruct (k =? k0)%string eqn:E; cbn [List.map fst].
  - apply String.eqb_eq in E; now subst.
  - rewrite IH. now destruct (lookup k ps).
Qed.

Lemma NoDup_set_prop ps k v :
  NoDup (List.map fst ps) -> NoDup (List.map fst (set_prop ps k v)).
Proof.
  intros H. rewrite keys_set_prop. unfold has_key.
  destruct (lookup k ps) eqn:E; [exact H|].
  apply NoDup_app; [exact H|repeat constructor; intros []|].
  intros x Hx [<-|[]]. now apply (lookup_none_not_in _ _ E).
Qed.

Lemma lookup_set_all k kvs :
  NoDup (List.map fst kvs) ->
  forall target,
    lookup k (set_all kvs target)
    = match lookup k kvs with Some v => Some v | None => lookup k target end.
Proof.
  unfold set_all. induction kvs as [|[k0 v0] kvs IH]; intros Hnd target;
    cbn [fold_left lookup fst snd]; [reflexivity|].
  cbn [List.map fst] in Hnd. apply NoDup_cons_iff in Hnd as [Hk0 Hnd].
  rewrite (IH Hnd), lookup_set_prop.
  destruct (String.eqb_spec k k0) as [->|_]; [|reflexivity].
  now rewrite (lookup_not_in _ _ Hk0).
Qed.

Lemma NoDup_set_all kvs :
  forall target, NoDup (List.map fst target) -> NoDup (List.map fst (set_all kvs target)).
Proof.
  unfold set_all. induction kvs as [|[k0 v0] kvs IH]; intros target H; cbn [fold_left];
    [exact H|]. now apply IH, NoDup_set_prop.
Qed.

Lemma set_all_fresh kvs :
  forall target,
    NoDup (List.map fst (target ++ kvs)) -> set_all kvs target = target ++ kvs.
Proof.
  unfold set_all. induction kvs as [|[k0 v0] kvs IH]; intros target H; cbn [fold_left fst snd];
    [now rewrite app_nil_r|].
  replace (target ++ (k0, v0) :: kvs) with ((target ++ [(k0, v0)]) ++ kvs) in *
    by now rewrite <- app_assoc.
  rewrite set_prop_fresh; [now apply IH|].
  apply lookup_not_in. rewrite !map_app in H. apply NoDup_app_remove_r in H.
  cbn in H. apply NoDup_remove_2 in H. now rewrite app_nil_r in H.
Qed.

Lemma falsy_no_props v : truthy v = false -> own_props v = [].
Proof.
  destruct v; cbn; try discriminate; try reflexivity.
  destruct s; [reflexivity|discriminate].
Qed.

Lemma last_binding_lookup k layers :
  Forall record layers ->
  forall target,
    lookup k (fold_left copy_props layers target)
    = last_binding k layers (lookup k target).
Proof.
  unfold last_binding. induction 1 as [|layer layers Hl _ IH]; intros target;
    cbn [fold_left]; [reflexivity|].
  rewrite IH. unfold copy_props. fold (set_all (own_props layer) target).
  now rewrite (lookup_set_all k _ Hl).
Qed.

Section Extend.

Variables (a : addr) (inh : list (string * value)) (obj : value).
Hypothesis source_is_plain : plain_source obj.
Hypothesis source_is_truthy : truthy obj = true.

Lemma extend_asks_hasOwnProperty k s :
  call_hasOwnProperty obj k s = (Val (Bool (hasOwnProperty obj k)), s).
Proof.
  destruct source_is_plain as (_ & Hm & _).
  unfold call_hasOwnProperty. rewrite Hm.
  destruct obj; try reflexivity; discriminate source_is_truthy.
Qed.

Lemma extend_keys_inherited ks own s :
  Forall (fun k => hasOwnProperty obj k = false) ks ->
  extend_keys (Obj a own inh) obj ks s = (Val (Obj a own inh), s).
Proof.
  induction 1 as [|k ks Hk _ IH]; cbn [extend_keys]; [reflexivity|].
  rewrite (bind_val _ _ _ _ _ (extend_asks_hasOwnProperty k s)), Hk.
  cbn [truthy]. now rewrite bind_ret.
Qed.

Lemma extend_keys_own rest todo :
  forall done own s,
    own_props obj = done ++ todo ->
    extend_keys (Obj a own inh) obj (List.map fst todo ++ rest) s
    = extend_keys (Obj a (set_all todo own) inh) obj rest s.
Proof.
  destruct source_is_plain as (Hnd & _ & Hproto). unfold record in Hnd.
  destruct (truthy_not_null _ source_is_truthy) as [Hn Hu].
  induction todo as [|[k v] todo IH]; intros done own s Hown; [reflexivity|].
  cbn [List.map fst app extend_keys].
  assert (Hfresh : lookup k done = None).
  { apply lookup_not_in. rewrite Hown, map_app in Hnd; cbn in Hnd.
    apply NoDup_remove_2 in Hnd. intros Hin; apply Hnd, in_or_app; now left. }
  assert (Hget : get obj k = v).
  { unfold get. rewrite Hown, (lookup_app_none _ _ _ Hfresh).
    cbn [lookup]. now rewrite String.eqb_refl. }
  assert (Hhas : hasOwnProperty obj k = true).
  { unfold hasOwnProperty. rewrite lookup_in; [reflexivity|].
    rewrite Hown, map_app. apply in_or_app; right; now left. }
  assert (Hk : (k =? "__proto__")%string = false).
  { apply String.eqb_neq; intros ->. rewrite Hown, (lookup_app_none _ _ _ Hfresh) in Hproto.
    cbn in Hproto; discriminate Hproto. }
  rewrite (bind_val _ _ _ _ _ (extend_asks_hasOwnProperty k s)), Hhas.
  cbn [truthy]. rewrite bind_assoc, (bind_val _ _ _ _ _ (read_val obj k s Hn Hu)), Hget.
  cbn [assign]. rewrite Hk, bind_ret.
  apply (IH (done ++ [(k, v)])). now rewrite <- app_assoc.
Qed.

(** One source merged into the object under update. *)
Lemma extend_keys_copies own s :
  extend_keys (Obj a own inh) obj (for_in_keys obj) s
  = (Val (Obj a (copy_props own obj) inh), s).
Proof.
  unfold for_in_keys. rewrite (extend_keys_own _ (own_props obj) [] own s eq_refl).
  apply extend_keys_inherited, Forall_forall. intros k Hk.
  apply filter_In in Hk as [Hin Hk]. apply negb_true_iff in Hk.
  unfold hasOwnProperty; rewrite Hk.
  destruct obj; cbn in Hin; try contradiction. cbn [orb]. apply andb_false_r.
Qed.

End Extend.

Lemma extend_pass a inh obj1_own objs :
  Forall (fun src => truthy src = true ->
                     plain_source src /\ strict_eq src (Obj a obj1_own inh) = false) objs ->
  forall own s,
    forEach_elems objs
      (fun obj obj1 =>
         if truthy obj then
           let obj := if strict_eq obj obj1 then obj1 else obj in
           extend_keys obj1 obj (for_in_keys obj)
         else ret obj1) (Obj a own inh) s
    = (Val (Obj a (fold_left copy_props objs own) inh), s).
Proof.
  induction 1 as [|src objs Hsrc _ IH]; intros own s; cbn [forEach_elems fold_left];
    [reflexivity|].
  destruct (truthy src) eqn:Ht.
  - destruct (Hsrc eq_refl) as [Hplain Hother].
    assert (E : strict_eq src (Obj a own inh) = false)
      by (destruct src; try reflexivity; exact Hother).
    rewrite E. cbv zeta.
    rewrite (bind_val _ _ _ _ _ (extend_keys_copies a inh src Hplain Ht own s)).
    apply IH.
  - rewrite bind_ret. unfold copy_props at 2. rewrite (falsy_no_props _ Ht). apply IH.
Qed.

Lemma extend_merges a own inh objs s :
  Forall (fun src => truthy src = true ->
                     plain_source src /\ strict_eq src (Obj a own inh) = false) objs ->
  extend (Obj a own inh) objs s
  = (Val (Obj a (fold_left copy_props objs own) inh), bump s).
Proof.
  intros H. unfold extend.
  rewrite (bind_val _ _ _ _ _ (eq_refl : alloc s = (Val (next s), bump s))).
  cbn [truthy andb forEach]. exact (extend_pass a inh own objs H own (bump s)).
Qed.

Lemma sources_are_records objs P :
  Forall (fun src => truthy src = true -> plain_source src /\ P src) objs ->
  Forall record objs.
Proof.
  intros H; eapply Forall_impl; [|exact H]. intros src Hsrc.
  destruct (truthy src) eqn:Ht; [now destruct (Hsrc Ht) as [(R & _) _]|].
  unfold record; rewrite (falsy_no_props _ Ht); constructor.
Qed.

Lemma last_binding_some k layers :
  forall found, found <> None -> last_binding k layers found <> None.
Proof.
  unfold last_binding. induction layers as [|layer layers IH]; intros found H;
    cbn [fold_left]; [exact H|].
  apply IH. now destruct (lookup k (own_props layer)).
Qed.

(** X12.  [extend] returns its first argument, the same object, updated:
    each property has the value the last source that has it as its own
    gives it, or else the value it had; nothing is removed, and what the
    sources only inherit is not copied.  Falsy sources are passed over. *)
Theorem extend_later_sources_win a own inh (objs : list value) (s : state U) :
  Forall (fun src => truthy src = true ->
                     plain_source src /\ strict_eq src (Obj a own inh) = false) objs ->
  exists own',
    extend (Obj a own inh) objs s = (Val (Obj a own' inh), bump s)
    /\ (forall k, lookup k own' = last_binding k objs (lookup k own))
    /\ (forall k, has_key k own = true -> has_key k own' = true).
Proof.
  intros H. exists (fold_left copy_props objs own).
  split; [now apply extend_merges|].
  assert (L : forall k, lookup k (fold_left copy_props objs own)
                        = last_binding k objs (lookup k own))
    by (intros k; apply last_binding_lookup; eapply sources_are_records; exact H).
  split; [exact L|].
  intros k. unfold has_key. rewrite L.
  pose proof (last_binding_some k objs (lookup k own)) as K.
  destruct (lookup k own); [|discriminate]. intros _.
  destruct (last_binding k objs (Some v)); [reflexivity|]. now destruct K.
Qed.

Lemma last_binding_twice k layers found :
  last_binding k layers (last_binding k layers found) = last_binding k layers found.
Proof.
  unfold last_binding. revert found.
  induction layers as [|layer layers IH] using rev_ind; intros found; [reflexivity|].
  rewrite !fold_left_app; cbn [fold_left].
  destruct (lookup k (own_props layer)); [reflexivity|].
  destruct (lookup k (own_props layer)) eqn:E in |- *; apply IH.
Qed.

(** X13.  Extending an object a second time with the same sources changes
    no property of it. *)
Theorem extend_again_changes_nothing a own inh (objs : list value) (s s2 : state U) :
  Forall (fun src => truthy src = true ->
                     plain_source src /\ strict_eq src (Obj a own inh) = false) objs ->
  exists own' own'',
    extend (Obj a own inh) objs s = (Val (Obj a own' inh), bump s)
    /\ extend (Obj a own' inh) objs s2 = (Val (Obj a own'' inh), bump s2)
    /\ forall k, lookup k own'' = lookup k own'.
Proof.
  intros H.
  exists (fold_left copy_props objs own),
    (fold_left copy_props objs (fold_left copy_props objs own)).
  split; [now apply extend_merges|].
  assert (R : Forall record objs) by (eapply sources_are_records; exact H).
  split.
  - apply extend_merges. eapply Forall_impl; [|exact H].
    intros src Hsrc Ht. destruct (Hsrc Ht) as [Hp Hne]. split; [exact Hp|].
    destruct src; try reflexivity; exact Hne.
  - intros k. rewrite !(last_binding_lookup k objs R). apply last_binding_twice.
Qed.

(** X14.  Extending a new empty object with one object and omitting
    nothing from that object come to the same: both yield a shallow copy
    with the own properties of the object, in their order. *)
Theorem extend_of_empty_is_omit_of_nothing
  a b own inh (s s2 : state U) :
  plain_source (Obj b own inh) ->
  a <> b ->
  extend (Obj a [] []) [Obj b own inh] s = (Val (Obj a own []), bump s)
  /\ omit (Obj b own inh) Undefined s2 = (Val (Obj (next s2) own []), bump s2).
Proof.
  intros Hp Hab. pose proof Hp as (Hnd & Hm & Hproto).
  unfold record in Hnd; cbn in Hnd, Hm, Hproto.
  split.
  - rewrite extend_merges.
    + cbn [fold_left]. unfold copy_props; cbn [own_props].
      fold (set_all own []). now rewrite set_all_fresh.
    + constructor; [|constructor]. intros _. split; [exact Hp|].
      cbn. apply Nat.eqb_neq. congruence.
  - rewrite (omit_listed b own inh Undefined Hm (or_introl eq_refl) Hproto s2 Hnd).
    do 3 f_equal. apply forallb_filter_id, forallb_forall. now intros.
Qed.

(** ** The Option component *)

Lemma object_literal_value written spreads s :
  object_literal written spreads s
  = (Val (Obj (next s) (fold_left copy_props spreads written) []), bump s).
Proof. reflexivity. Qed.

Lemma lookup_filter_keys (p : string -> bool) k (ps : list (string * value)) :
  lookup k (List.filter (fun kv => p (fst kv)) ps)
  = if p k then lookup k ps else None.
Proof.
  induction ps as [|[k0 v0] ps IH]; cbn [List.filter lookup fst];
    [now destruct (p k)|].
  destruct (String.eqb_spec k k0) as [->|Hne].
  - destruct (p k0); cbn [lookup]; [now rewrite String.eqb_refl|exact IH].
  - destruct (p k0); cbn [lookup]; [|exact IH].
    apply String.eqb_neq in Hne. now rewrite Hne.
Qed.

Lemma NoDup_filter_keys (p : string -> bool) (ps : list (string * value)) :
  NoDup (List.map fst ps) ->
  NoDup (List.map fst (List.filter (fun kv => p (fst kv)) ps)).
Proof.
  induction ps as [|[k0 v0] ps IH]; cbn [List.filter List.map fst]; [auto|].
  intros H; apply NoDup_cons_iff in H as [Hk H].
  destruct (p k0); cbn [List.map fst]; [|now apply IH].
  constructor; [|now apply IH]. intros Hin; apply Hk.
  apply in_map_iff in Hin as ([k1 v1] & <- & Hin). apply filter_In in Hin as [Hin _].
  now apply (in_map fst) in Hin.
Qed.

Lemma sanitizeChildProps_value a own inh s :
  NoDup (List.map fst own) ->
  lookup "hasOwnProperty" (own ++ inh) = None ->
  lookup "__proto__" own = None ->
  sanitizeChildProps (Obj a own inh) s
  = (Val (Obj (S (next s))
            (List.filter (fun kv => negb (reserved (fst kv))) own) []),
     bump (bump s)).
Proof.
  intros Hnd Hm Hproto. unfold sanitizeChildProps.
  rewrite (bind_val _ _ _ _ _ (eq_refl : alloc s = (Val (next s), bump s))).
  rewrite (omit_listed a own inh (Arr (next s) (List.map Str optionPropTypes)) Hm
             (or_intror eq_refl) Hproto (bump s) Hnd).
  reflexivity.
Qed.

(** X15.  Of props that have no key [__proto__] of their own,
    [sanitizeChildProps] returns a new object with the own properties of
    [properties] but the eight props of the Option ([children], [style],
    [hoverStyle], [selectStyle], [disabledSelectStyle],
    [_isDisplayedAsSelected], [value], [identifier]): each other key has
    its value there, none of the eight is there. *)
Theorem sanitizeChildProps_drops_the_option_props a own inh (s : state U) :
  NoDup (List.map fst own) ->
  lookup "hasOwnProperty" (own ++ inh) = None ->
  lookup "__proto__" own = None ->
  exists childProps,
    sanitizeChildProps (Obj a own inh) s
    = (Val (Obj (S (next s)) childProps []), bump (bump s))
    /\ (forall k, In k optionPropTypes -> lookup k childProps = None)
    /\ (forall k, ~ In k optionPropTypes -> lookup k childProps = lookup k own).
Proof.
  intros Hnd Hm Hproto.
  exists (List.filter (fun kv => negb (reserved (fst kv))) own).
  split; [now apply sanitizeChildProps_value|].
  split; intros k Hk; rewrite (lookup_filter_keys (fun k => negb (reserved k))).
  - replace (reserved k) with true; [reflexivity|].
    symmetry; apply existsb_exists. exists k; split; [exact Hk|apply String.eqb_refl].
  - replace (reserved k) with false; [reflexivity|].
    symmetry; apply not_true_is_false. intros H.
    apply existsb_exists in H as (name & Hin & E). apply String.eqb_eq in E; now subst.
Qed.

Lemma copy_props_of_a_literal a st :
  NoDup (List.map fst st) -> copy_props [] (Obj a st []) = st.
Proof.
  intros H. unfold copy_props; cbn [own_props]. fold (set_all st []).
  now rewrite set_all_fresh.
Qed.

Lemma NoDup_copy_props layers :
  forall target,
    NoDup (List.map fst target) -> NoDup (List.map fst (fold_left copy_props layers target)).
Proof.
  induction layers as [|layer layers IH]; intros target H; cbn [fold_left]; [exact H|].
  apply IH. unfold copy_props. fold (set_all (own_props layer) target).
  now apply NoDup_set_all.
Qed.

(** [optionStyle] is the layers of [style_layers] spread one over the
    other: spreading the first two and then the result with the next two
    comes to the same. *)
Lemma optionStyle_value sa sown sinh pa pown pinh ca cown cinh s :
  let style := Obj sa sown sinh in
  let props := Obj pa pown pinh in
  let context := Obj ca cown cinh in
  exists a s',
    optionStyle style props context s
    = (Val (Obj a (fold_left copy_props (style_layers style props context) []) []), s')
    /\ (next s <= a)%nat.
Proof.
  intros style props context. unfold optionStyle, style_layers.
  rewrite (bind_val _ _ _ _ _ (read_val props "_isDisplayedAsSelected" s
                                 ltac:(discriminate) ltac:(discriminate))).
  assert (Hflat : forall a0 l1 l2 l3 l4,
             fold_left copy_props [Obj a0 (fold_left copy_props [l1; l2] []) []; l3; l4] []
             = fold_left copy_props ([l1; l2] ++ [l3; l4]) []).
  { intros. cbn [fold_left app]. rewrite copy_props_of_a_literal; [reflexivity|].
    apply (NoDup_copy_props [l1; l2] []); constructor. }
  destruct (truthy (get props "_isDisplayedAsSelected")).
  - rewrite !(bind_val _ _ _ _ _ (read_val style _ s ltac:(discriminate) ltac:(discriminate))).
    rewrite !(bind_val _ _ _ _ _ (read_val props _ s ltac:(discriminate) ltac:(discriminate))).
    rewrite (bind_val _ _ _ _ _ (object_literal_value _ _ s)).
    rewrite (bind_val _ _ _ _ _ (read_val context _ _ ltac:(discriminate) ltac:(discriminate))).
    destruct (truthy (get context "isDisabled")).
    + rewrite !(bind_val _ _ _ _ _ (read_val style _ _ ltac:(discriminate) ltac:(discriminate))).
      rewrite !(bind_val _ _ _ _ _ (read_val props _ _ ltac:(discriminate) ltac:(discriminate))).
      rewrite object_literal_value, Hflat. cbn [next bump]. eauto.
    + rewrite app_nil_r. unfold ret; eauto.
  - rewrite !(bind_val _ _ _ _ _ (read_val style _ s ltac:(discriminate) ltac:(discriminate))).
    rewrite !(bind_val _ _ _ _ _ (read_val props _ s ltac:(discriminate) ltac:(discriminate))).
    rewrite (bind_val _ _ _ _ _ (object_literal_value _ _ s)).
    rewrite (bind_val _ _ _ _ _ (read_val context _ _ ltac:(discriminate) ltac:(discriminate))).
    rewrite (bind_val _ _ _ _ _ (read_val props _ _ ltac:(discriminate) ltac:(discriminate))).
    destruct (strict_eq (get context "isHoveredValue") (get props "value")).
    + rewrite !(bind_val _ _ _ _ _ (read_val style _ _ ltac:(discriminate) ltac:(discriminate))).
      rewrite !(bind_val _ _ _ _ _ (read_val props _ _ ltac:(discriminate) ltac:(discriminate))).
      rewrite object_literal_value, Hflat. cbn [next bump]. eauto.
    + rewrite app_nil_r. unfold ret; eauto.
Qed.

(** X16.  What [render] hands to the [div], for props that have no key
    [__proto__] of their own: the element is a [div] with the children of
    the props; its [style] is the option style that [render] computed, a
    new object; none of the other seven props of the Option ([value],
    [identifier], [children], the style props) is forwarded; every other
    own prop is forwarded with its value. *)
Theorem render_forwards_the_other_props
  sa sown sinh pa pown pinh ca cown cinh (s : state U) :
  let style := Obj sa sown sinh in
  let props := Obj pa pown pinh in
  let context := Obj ca cown cinh in
  NoDup (List.map fst pown) ->
  lookup "hasOwnProperty" (pown ++ pinh) = None ->
  lookup "__proto__" pown = None ->
  exists state s1 el s2 a st s3,
    childProps_state props s = (Val state, s1)
    /\ render style props context state s1 = (Val el, s2)
    /\ optionStyle style props context s1 = (Val (Obj a st []), s3)
    /\ (next s1 <= a)%nat
    /\ tag el = "div"
    /\ children el = get props "children"
    /\ forall k,
         lookup k (own_props (config el))
         = if (k =? "style")%string then Some (Obj a st [])
           else if reserved k then None
           else lookup k pown.
Proof.
  intros style props context Hnd Hm Hproto.
  set (cp := List.filter (fun kv => negb (reserved (fst kv))) pown).
  set (s1 := bump (bump (bump s))).
  destruct (optionStyle_value sa sown sinh pa pown pinh ca cown cinh s1)
    as (a & s3 & Eos & Ha); fold style props context in Eos.
  set (st := fold_left copy_props (style_layers style props context) []) in *.
  exists (Obj (S (S (next s))) [("childProps", Obj (S (next s)) cp [])] []), s1.
  exists (mkElement "div"
            (Obj (next s3) (copy_props [("style", Obj a st [])] (Obj (S (next s)) cp [])) [])
            (get props "children")),
    (bump s3), a, st, s3.
  split.
  { unfold childProps_state, props.
    now rewrite (bind_val _ _ _ _ _
                   (sanitizeChildProps_value pa pown pinh s Hnd Hm Hproto)). }
  split.
  { unfold render. rewrite (bind_val _ _ _ _ _ Eos).
    rewrite (bind_val _ _ _ _ _
               (read_val (Obj (S (S (next s))) [("childProps", Obj (S (next s)) cp [])] [])
                  "childProps" s3 ltac:(discriminate) ltac:(discriminate))).
    change (get (Obj (S (S (next s))) [("childProps", Obj (S (next s)) cp [])] [])
              "childProps") with (Obj (S (next s)) cp []).
    rewrite (bind_val _ _ _ _ _ (object_literal_value _ _ s3)).
    now rewrite (bind_val _ _ _ _ _ (read_val props "children" (bump s3)
                                       ltac:(discriminate) ltac:(discriminate))). }
  split; [exact Eos|]. split; [exact Ha|]. split; [reflexivity|]. split; [reflexivity|].
  intros k. cbn [config own_props]. unfold copy_props; cbn [own_props].
  fold (set_all cp [("style", Obj a st [])]).
  rewrite lookup_set_all by now apply (NoDup_filter_keys (fun k => negb (reserved k))).
  unfold cp. rewrite (lookup_filter_keys (fun k => negb (reserved k))). cbn [lookup].
  destruct (reserved k) eqn:R; cbn [negb]; [reflexivity|].
  destruct (String.eqb_spec k "style") as [->|_]; [vm_compute in R; discriminate R|].
  now destruct (lookup k pown).
Qed.

(** X17.  The style of an option is layered, the later layer over the
    earlier: for an option displayed as selected the theme's
    [selectStyle], the [selectStyle] of the props and, when the context is
    disabled, the two [disabledSelectStyle]; otherwise the theme's [style],
    the [style] of the props and, when the context's hovered value [===]
    the option's value, the two [hoverStyle].  Each key has the value of
    the last layer that has it: what the props give wins over the theme,
    and a selected option never takes a hover style. *)
Theorem optionStyle_later_layers_win
  sa sown sinh pa pown pinh ca cown cinh (s : state U) :
  let style := Obj sa sown sinh in
  let props := Obj pa pown pinh in
  let context := Obj ca cown cinh in
  Forall record (style_layers style props context) ->
  exists a st s',
    optionStyle style props context s = (Val (Obj a st []), s')
    /\ forall k, lookup k st = last_binding k (style_layers style props context) None.
Proof.
  intros style props context Hrec.
  destruct (optionStyle_value sa sown sinh pa pown pinh ca cown cinh s)
    as (a & s' & E & _).
  exists a, (fold_left copy_props (style_layers style props context) []), s'.
  split; [exact E|]. intros k. now rewrite (last_binding_lookup k _ Hrec).
Qed.

Lemma lookup_app_some k ps qs v :
  lookup k ps = Some v -> lookup k (ps ++ qs) = Some v.
Proof.
  induction ps as [|[k' v'] ps IH]; cbn; [discriminate|].
  now destruct (k =? k')%string.
Qed.

(** X18.  An option that was given no [value], in a context that has no
    hovered value, is dressed as hovered when it is not displayed as
    selected: [undefined === undefined]. *)
Theorem option_without_value_is_hovered
  sa sown sinh pa pown pinh ca cown cinh (s : state U) :
  let style := Obj sa sown sinh in
  let props := Obj pa pown pinh in
  let context := Obj ca cown cinh in
  lookup "value" (pown ++ pinh) = None ->
  lookup "isHoveredValue" (cown ++ cinh) = None ->
  truthy (get props "_isDisplayedAsSelected") = false ->
  exists a s',
    optionStyle style props context s
    = (Val (Obj a (fold_left copy_props
                     [get style "style"; get props "style";
                      get style "hoverStyle"; get props "hoverStyle"] []) []), s').
Proof.
  intros style props context Hv Hh Hsel.
  destruct (optionStyle_value sa sown sinh pa pown pinh ca cown cinh s)
    as (a & s' & E & _).
  exists a, s'. fold style props context in E. rewrite E. do 3 f_equal.
  unfold style_layers. rewrite Hsel.
  assert (G : forall own inh b k, lookup k (own ++ inh) = None ->
                (k =? "length")%string = false -> get (Obj b own inh) k = Undefined).
  { intros own inh b k H L. unfold get; cbn [own_props inherited_props].
    destruct (lookup k own) eqn:E1.
    - rewrite (lookup_app_some k own inh v E1) in H; discriminate H.
    - rewrite (lookup_app_none _ _ _ E1) in H. now rewrite H, L. }
  unfold props at 2, context.
  now rewrite (G pown pinh pa "value" Hv eq_refl),
    (G cown cinh ca "isHoveredValue" Hh eq_refl).
Qed.

(** ** Where the helpers throw and where they return *)















End Helpers.

(** ** Closed instances *)

Lemma always_returns_normally v f : returns_normally (always v) f.
Proof. intros this xs u; now exists v, u. Qed.


(** [each(null, fn)] and the like. *)
Lemma falsy_collection_is_a_no_op_witness :
  truthy Null = false
  /\ each (always (Bool true)) Null (Fun 1 1) Undefined started
     = (Val Undefined, started)
  /\ size Null started = (Val (Num 0), started).
Proof.
  split; [reflexivity|].
  destruct (falsy_collection_is_a_no_op (always (Bool true)) Null (Fun 1 1)
              Undefined started eq_refl) as (He & _ & _ & _ & _ & _ & _ & _ & Hs).
  split; [exact He|exact Hs].
Defined.


Ltac small := unfold countable, indexable; vm_compute; discriminate.


(** [omit({ id: 7 }, 'width')] returns [{}]: ["id"] occurs inside
    ["width"]. *)
Lemma omit_single_key_drops_substrings_witness :
  "id" <> "width"
  /\ String.index 0 "id" "width" <> None
  /\ "id" <> "hasOwnProperty"
  /\ omit (always (Bool true)) (Obj 0 [("id", Num 7)] []) (Str "width") started
     = (Val (Obj 2 [] []), mkState tt [] 3 0).
Proof.
  assert (H1 : "id" <> "width") by discriminate.
  assert (H2 : String.index 0 "id" "width" <> None) by discriminate.
  assert (H3 : "id" <> "hasOwnProperty") by discriminate.
  split; [exact H1|]. split; [exact H2|]. split; [exact H3|].
  exact (omit_single_key_drops_substrings (always (Bool true)) 0%nat "id" (Num 7)
           "width" started H1 H2 H3).
Defined.

(** [map([7], undefined)] returns [[]]: no slot for the one element. *)
Lemma map_without_predicate_is_empty :
  map (always Undefined) (Arr 0 [Num 7]) Undefined Undefined started
  = (Val (Arr 2 []), mkState tt [] 3 0)
  /\ List.length (@nil value) <> List.length (normalized (Arr 0 [Num 7])).
Proof. split; [reflexivity|discriminate]. Qed.

Lemma map_contract_witness :
  truthy (Obj 0 [("a", Num 1); ("b", Num 2)] []) = true
  /\ indexable (List.length (map_arguments (Obj 0 [("a", Num 1); ("b", Num 2)] [])))
  /\ truthy (Fun 1 2) = true
  /\ map (always (Str "x")) (Obj 0 [("a", Num 1); ("b", Num 2)] []) (Fun 1 2)
       Undefined started
     = (Val (Arr 2 [Str "x"; Str "x"]),
        mkState tt [mkCall 1 Undefined [Num 1; Str "a"];
                    mkCall 1 Undefined [Num 2; Str "b"]] 4 0).
Proof.
  assert (Hc : indexable
                 (List.length (map_arguments (Obj 0 [("a", Num 1); ("b", Num 2)] []))))
    by small.
  split; [reflexivity|]. split; [exact Hc|]. split; [reflexivity|].
  destruct (map_contract (always (Str "x")) (Obj 0 [("a", Num 1); ("b", Num 2)] [])
              (Fun 1 2) Undefined started eq_refl Hc) as (H & _ & _).
  rewrite (H eq_refl). reflexivity.
Defined.


(** [union([1], { length: 1, 0: 'a' })] throws. *)
Lemma union_array_like_object_throws_witness :
  Forall plain [Arr 0 [Num 1]]
  /\ array_like (Obj 1 [("length", Num 1); ("0", Str "a")] []) = true
  /\ lookup "forEach" ([("length", Num 1); ("0", Str "a")] ++ []) = None
  /\ union (always (Bool true))
       ([Arr 0 [Num 1]] ++ Obj 1 [("length", Num 1); ("0", Str "a")] [] :: [])
       started
     = (Throw TypeError, mkState tt [] 4 0).
Proof.
  assert (H1 : Forall plain [Arr 0 [Num 1]])
    by (constructor; [right; left; reflexivity|constructor]).
  split; [exact H1|]. split; [reflexivity|]. split; [reflexivity|].
  exact (union_array_like_object_throws (always (Bool true)) [Arr 0 [Num 1]] []
           1%nat [("length", Num 1); ("0", Str "a")] [] started H1 eq_refl eq_refl).
Defined.





(** [find([undefined], fn)] with [fn] answering [true] returns
    [undefined], the element found; [findIndex] returns [0]. *)
Lemma find_returns_an_undefined_element :
  fst (find (always (Bool true)) (Arr 0 [Undefined]) (Fun 1 1) Undefined started)
  = Val Undefined
  /\ fst (findIndex (always (Bool true)) (Arr 0 [Undefined]) (Fun 1 1) Undefined started)
     = Val (Num 0)
  /\ fst (findIndex (always (Bool true)) (Arr 0 [Undefined]) (Fun 1 1) Undefined started)
     <> Val Undefined.
Proof. repeat split; discriminate. Qed.

(** [each({ length: 1, 0: 'a' }, fn)] throws. *)
Lemma each_array_like_object_throws_witness :
  array_like (Obj 0 [("length", Num 1); ("0", Str "a")] []) = true
  /\ lookup "forEach" ([("length", Num 1); ("0", Str "a")] ++ []) = None
  /\ each (always (Bool true)) (Obj 0 [("length", Num 1); ("0", Str "a")] [])
       (Fun 1 1) Undefined started
     = (Throw TypeError, started).
Proof.
  split; [reflexivity|]. split; [reflexivity|].
  apply (each_array_like_object_throws (always (Bool true))); reflexivity.
Defined.

(** ** Closed instances of the further properties *)

Lemma answers_computes g f : computes (answers g) f g.
Proof. now intros this xs u. Qed.

Lemma plain_array a elems : plain (Arr a elems).
Proof. right; left; reflexivity. Qed.

Lemma each_invokes_once_per_element_witness :
  truthy (Arr 0 [Num 1; Num 2]) = true
  /\ plain (Arr 0 [Num 1; Num 2])
  /\ returns_normally (always (Bool true)) 1%nat
  /\ exists u',
       each (always (Bool true)) (Arr 0 [Num 1; Num 2]) (Fun 1 1) (Str "ctx") started
       = (Val Undefined,
          after started u'
            (List.map (fun elm => mkCall 1 (Str "ctx") [elm])
               (normalized (Arr 0 [Num 1; Num 2])))).
Proof.
  split; [reflexivity|]. split; [apply plain_array|].
  split; [apply always_returns_normally|].
  exact (each_invokes_once_per_element (always (Bool true)) (Arr 0 [Num 1; Num 2])
           1%nat 1%nat (Str "ctx") started eq_refl (plain_array _ _)
           (always_returns_normally _ _)).
Defined.

Lemma filter_keeps_the_accepted_elements_witness :
  truthy (Arr 0 [Num 1; Num 2; Num 3; Num 4]) = true
  /\ plain (Arr 0 [Num 1; Num 2; Num 3; Num 4])
  /\ fst (filter (answers is_even) (Arr 0 [Num 1; Num 2; Num 3; Num 4]) (Fun 1 1)
            Undefined started)
     = Val (Arr 2 [Num 2; Num 4]).
Proof.
  split; [reflexivity|]. split; [apply plain_array|].
  destruct (filter_keeps_the_accepted_elements (answers is_even)
              (Arr 0 [Num 1; Num 2; Num 3; Num 4]) (Fun 1 1) Undefined started
              eq_refl (plain_array _ _)) as [H _].
  rewrite (H eq_refl). reflexivity.
Defined.

Lemma first_and_last_of_the_sequence_witness :
  truthy (Arr 0 [Num 4; Num 5; Num 6]) = true
  /\ countable (List.length (normalized (Arr 0 [Num 4; Num 5; Num 6])))
  /\ first (Arr 0 [Num 4; Num 5; Num 6]) started = (Val (Num 4), started)
  /\ last (Arr 0 [Num 4; Num 5; Num 6]) started = (Val (Num 6), started).
Proof.
  assert (Hc : countable (List.length (normalized (Arr 0 [Num 4; Num 5; Num 6]))))
    by small.
  split; [reflexivity|]. split; [exact Hc|].
  destruct (first_and_last_of_the_sequence (Arr 0 [Num 4; Num 5; Num 6]) started
              eq_refl) as [H1 H2].
  specialize (H2 Hc).
  rewrite normalized_array in H1, H2. split; [exact H1|exact H2].
Defined.

Lemma size_counts_the_sequence_witness :
  truthy (Obj 0 [("a", Num 1); ("b", Num 2)] []) = true
  /\ size (Obj 0 [("a", Num 1); ("b", Num 2)] []) started
     = (Val (Num 1), mkState tt [] 3 0).
Proof.
  split; [reflexivity|].
  exact (size_counts_the_sequence (Obj 0 [("a", Num 1); ("b", Num 2)] []) started
           eq_refl).
Defined.

Lemma scans_with_a_pure_predicate_witness :
  truthy (Arr 0 [Num 1; Num 3; Num 4; Num 6]) = true
  /\ countable (List.length (normalized (Arr 0 [Num 1; Num 3; Num 4; Num 6])))
  /\ computes (answers is_even) 1%nat is_even
  /\ fst (find (answers is_even) (Arr 0 [Num 1; Num 3; Num 4; Num 6]) (Fun 1 1)
            Undefined started) = Val (Num 4)
  /\ fst (findIndex (answers is_even) (Arr 0 [Num 1; Num 3; Num 4; Num 6]) (Fun 1 1)
            Undefined started) = Val (Num 2)
  /\ fst (some (answers is_even) (Arr 0 [Num 1; Num 3; Num 4; Num 6]) (Fun 1 1)
            Undefined started) = Val (Bool true).
Proof.
  assert (Hc : countable
                 (List.length (normalized (Arr 0 [Num 1; Num 3; Num 4; Num 6]))))
    by small.
  split; [reflexivity|]. split; [exact Hc|]. split; [apply answers_computes|].
  destruct (scans_with_a_pure_predicate (answers is_even)
              (Arr 0 [Num 1; Num 3; Num 4; Num 6]) Undefined 1%nat 1%nat is_even
              started eq_refl Hc (answers_computes _ _)) as (H1 & H2 & H3).
  rewrite normalized_array in H1, H2, H3.
  split; [exact H1|]. split; [exact H2|exact H3].
Defined.

Lemma omit_drops_the_listed_keys_witness :
  lookup "hasOwnProperty" ([("a", Num 1); ("b", Num 2); ("c", Num 3)] ++ [("z", Num 0)])
  = None
  /\ (truthy (Arr 1 [Str "b"]) = false \/ isArray (Arr 1 [Str "b"]) = true)
  /\ lookup "__proto__" [("a", Num 1); ("b", Num 2); ("c", Num 3)] = None
  /\ NoDup (List.map fst [("a", Num 1); ("b", Num 2); ("c", Num 3)])
  /\ omit (always (Bool true)) (Obj 0 [("a", Num 1); ("b", Num 2); ("c", Num 3)]
                                  [("z", Num 0)]) (Arr 1 [Str "b"]) started
     = (Val (Obj 2 [("a", Num 1); ("c", Num 3)] []), mkState tt [] 3 0).
Proof.
  assert (H3 : NoDup (List.map fst [("a", Num 1); ("b", Num 2); ("c", Num 3)])).
  { cbn. repeat constructor; cbn; intuition discriminate. }
  split; [reflexivity|]. split; [now right|]. split; [reflexivity|]. split; [exact H3|].
  exact (proj1 (omit_drops_the_listed_keys (always (Bool true)) 0%nat
                  [("a", Num 1); ("b", Num 2); ("c", Num 3)] [("z", Num 0)]
                  (Arr 1 [Str "b"]) started eq_refl (or_intror eq_refl) eq_refl H3)).
Defined.



Ltac distinct_keys := cbn; repeat constructor; cbn; intuition discriminate.

Lemma plain_source_b : plain_source (Obj 1 [("b", Num 2)] []).
Proof. split; [unfold record; distinct_keys|split; reflexivity]. Qed.

Lemma plain_source_a : plain_source (Obj 2 [("a", Num 3)] [("z", Num 9)]).
Proof. split; [unfold record; distinct_keys|split; reflexivity]. Qed.

Lemma sources_of_the_instance :
  Forall (fun src => truthy src = true ->
                     plain_source src /\ strict_eq src (Obj 0 [("a", Num 1)] []) = false)
    [Obj 1 [("b", Num 2)] []; Null; Obj 2 [("a", Num 3)] [("z", Num 9)]].
Proof.
  constructor; [intros _; split; [apply plain_source_b|reflexivity]|].
  constructor; [discriminate|].
  constructor; [intros _; split; [apply plain_source_a|reflexivity]|constructor].
Qed.

(** [extend({ a: 1 }, { b: 2 }, null, { a: 3 })] *)
Lemma extend_later_sources_win_witness :
  Forall (fun src => truthy src = true ->
                     plain_source src /\ strict_eq src (Obj 0 [("a", Num 1)] []) = false)
    [Obj 1 [("b", Num 2)] []; Null; Obj 2 [("a", Num 3)] [("z", Num 9)]]
  /\ exists own',
       extend (always (Bool true)) (Obj 0 [("a", Num 1)] [])
         [Obj 1 [("b", Num 2)] []; Null; Obj 2 [("a", Num 3)] [("z", Num 9)]] running
       = (Val (Obj 0 own' []), mkState tt [] 51 0)
       /\ lookup "a" own' = Some (Num 3)
       /\ lookup "b" own' = Some (Num 2)
       /\ lookup "z" own' = None.
Proof.
  split; [exact sources_of_the_instance|].
  destruct (extend_later_sources_win (always (Bool true)) 0%nat [("a", Num 1)] []
              _ running sources_of_the_instance) as (own' & E & L & _).
  exists own'. split; [exact E|]. rewrite !L. repeat split.
Defined.

Lemma extend_again_changes_nothing_witness :
  Forall (fun src => truthy src = true ->
                     plain_source src /\ strict_eq src (Obj 0 [("a", Num 1)] []) = false)
    [Obj 1 [("b", Num 2)] []; Null; Obj 2 [("a", Num 3)] [("z", Num 9)]]
  /\ exists own' own'',
       extend (always (Bool true)) (Obj 0 [("a", Num 1)] [])
         [Obj 1 [("b", Num 2)] []; Null; Obj 2 [("a", Num 3)] [("z", Num 9)]] running
       = (Val (Obj 0 own' []), mkState tt [] 51 0)
       /\ extend (always (Bool true)) (Obj 0 own' [])
            [Obj 1 [("b", Num 2)] []; Null; Obj 2 [("a", Num 3)] [("z", Num 9)]] running
          = (Val (Obj 0 own'' []), mkState tt [] 51 0)
       /\ forall k, lookup k own'' = lookup k own'.
Proof.
  split; [exact sources_of_the_instance|].
  exact (extend_again_changes_nothing (always (Bool true)) 0%nat [("a", Num 1)] []
           _ running running sources_of_the_instance).
Defined.

Lemma extend_of_empty_is_omit_of_nothing_witness :
  plain_source (Obj 2 [("a", Num 3)] [("z", Num 9)])
  /\ 0%nat <> 2%nat
  /\ extend (always (Bool true)) (Obj 0 [] []) [Obj 2 [("a", Num 3)] [("z", Num 9)]]
       running
     = (Val (Obj 0 [("a", Num 3)] []), mkState tt [] 51 0)
  /\ omit (always (Bool true)) (Obj 2 [("a", Num 3)] [("z", Num 9)]) Undefined running
     = (Val (Obj 50 [("a", Num 3)] []), mkState tt [] 51 0).
Proof.
  split; [exact plain_source_a|]. split; [discriminate|].
  exact (extend_of_empty_is_omit_of_nothing (always (Bool true)) 0%nat 2%nat
           [("a", Num 3)] [("z", Num 9)] running running plain_source_a
           ltac:(discriminate)).
Defined.

Lemma sample_props_distinct : NoDup (List.map fst sample_props).
Proof. distinct_keys. Qed.

Lemma sanitizeChildProps_drops_the_option_props_witness :
  NoDup (List.map fst sample_props)
  /\ lookup "hasOwnProperty" (sample_props ++ []) = None
  /\ lookup "__proto__" sample_props = None
  /\ exists childProps,
       sanitizeChildProps (always (Bool true)) (Obj 20 sample_props []) running
       = (Val (Obj 51 childProps []), mkState tt [] 52 0)
       /\ lookup "value" childProps = None
       /\ lookup "title" childProps = Some (Str "pick me").
Proof.
  split; [exact sample_props_distinct|]. split; [reflexivity|]. split; [reflexivity|].
  destruct (sanitizeChildProps_drops_the_option_props (always (Bool true)) 20%nat
              sample_props [] running sample_props_distinct eq_refl eq_refl)
    as (childProps & E & Hin & Hout).
  exists childProps. split; [exact E|]. split.
  - apply Hin. cbn; tauto.
  - rewrite Hout; [reflexivity|]. cbn; intuition discriminate.
Defined.

Lemma render_forwards_the_other_props_witness :
  NoDup (List.map fst sample_props)
  /\ lookup "hasOwnProperty" (sample_props ++ []) = None
  /\ lookup "__proto__" sample_props = None
  /\ exists this_state s1 el s2,
       childProps_state (always (Bool true)) (Obj 20 sample_props []) running
       = (Val this_state, s1)
       /\ render (Obj 10 sample_theme []) (Obj 20 sample_props [])
            (Obj 40 sample_context []) this_state s1 = (Val el, s2)
       /\ tag el = "div"
       /\ children el = Str "label"
       /\ lookup "title" (own_props (config el)) = Some (Str "pick me")
       /\ lookup "value" (own_props (config el)) = None.
Proof.
  split; [exact sample_props_distinct|]. split; [reflexivity|]. split; [reflexivity|].
  destruct (render_forwards_the_other_props (always (Bool true)) 10%nat sample_theme []
              20%nat sample_props [] 40%nat sample_context [] running
              sample_props_distinct eq_refl eq_refl)
    as (this_state & s1 & el & s2 & a & st & s3 & E1 & E2 & _ & _ & Ht & Hc & Hk).
  exists this_state, s1, el, s2.
  split; [exact E1|]. split; [exact E2|]. split; [exact Ht|]. split; [exact Hc|].
  rewrite !Hk. split; reflexivity.
Defined.

Lemma sample_layers_are_records :
  Forall record
    (style_layers (Obj 10 sample_theme []) (Obj 20 sample_props [])
       (Obj 40 sample_context [])).
Proof. unfold record. repeat constructor; cbn; intuition discriminate. Qed.

(** The hovered option of the instance: the padding of its props over the
    theme's, the theme's hover colour over the theme's colour. *)
Lemma optionStyle_later_layers_win_witness :
  Forall record
    (style_layers (Obj 10 sample_theme []) (Obj 20 sample_props [])
       (Obj 40 sample_context []))
  /\ exists a st s',
       optionStyle (Obj 10 sample_theme []) (Obj 20 sample_props [])
         (Obj 40 sample_context []) running = (Val (Obj a st []), s')
       /\ lookup "padding" st = Some (Num 5)
       /\ lookup "color" st = Some (Str "blue").
Proof.
  split; [exact sample_layers_are_records|].
  destruct (optionStyle_later_layers_win 10%nat sample_theme [] 20%nat sample_props []
              40%nat sample_context [] running sample_layers_are_records)
    as (a & st & s' & E & L).
  exists a, st, s'. split; [exact E|]. rewrite !L. split; reflexivity.
Defined.

Lemma option_without_value_is_hovered_witness :
  lookup "value" ([("title", Str "t")] ++ []) = None
  /\ lookup "isHoveredValue" ([("isDisabled", Bool false)] ++ []) = None
  /\ truthy (get (Obj 20 [("title", Str "t")] []) "_isDisplayedAsSelected") = false
  /\ exists a s',
       optionStyle (Obj 10 sample_theme []) (Obj 20 [("title", Str "t")] [])
         (Obj 40 [("isDisabled", Bool false)] []) running
       = (Val (Obj a [("color", Str "blue"); ("padding", Num 1)] []), s').
Proof.
  split; [reflexivity|]. split; [reflexivity|]. split; [reflexivity|].
  exact (option_without_value_is_hovered 10%nat sample_theme [] 20%nat
           [("title", Str "t")] [] 40%nat [("isDisabled", Bool false)] [] running
           eq_refl eq_refl eq_refl).
Defined.
